(** * OpenQueue: durable step execution on top of a job queue

    A shallow embedding of the TypeScript sources of the repository:

    - [Job.ts]        the zod schemas of the job payload and [ActiveJob];
    - [JobRunner.ts]  the runtime API ([JobRunner], [StepRunner], the context
                      logger and the attempt recorder);
    - [Dispatcher.ts] the dispatcher configuration and [processJob];
    - [execution/executor.ts]  [ActiveJobExecutor] and [StepExecutor].

    Modelling conventions.

    - JavaScript values are the inductive [value]; numbers that occur in the
      engine (counters, timestamps, priorities, durations) are integers.
      The one sum that the runtime API computes, [Date.now() + duration],
      is the sum of the integers when both and their sum are safe integers
      ([exact_delay]); the statements about a sleep that is executed carry
      that as a hypothesis.
      [undefined] and [null] are kept apart, since zod's [default] and the
      [??] operator treat them differently.
    - A property that is missing and a property that holds [undefined] read
      the same ([get_prop]); the typed payload records do not tell them apart.
    - Asynchronous code runs to completion in program order: the engine awaits
      every promise it creates, so an [await] is a sequencing point.
    - The queue backend (BullMQ) is a store for the payload plus a trace of
      the calls it receives; its calls do not fail, and a redelivered job
      carries the payload that was last written.
    - A step handler acts on an outside world [W] only; [Date.now()] reads
      the clock of that world.
    - A workflow function is the sequence of runtime calls it makes; it does
      not catch what these calls throw.
    - [__state] is a finite map: the order of its keys is not kept. In the
      source it is a plain object, read and written by [data.__state[id]]:
      that is the lookup and the update of a map for every [id] that names
      no member of [Object.prototype] ([ordinary_id]), with
      [Object.prototype] as the language defines it. The statements about
      a step or a sleep that is called by its [id] and executed carry
      [ordinary_id] as a hypothesis. *)

From stdpp Require Import base option list strings gmap fin_maps pretty.
From Stdlib Require Import ZArith Lia.

Set Warnings "-register-all".
Open Scope string_scope.
Open Scope list_scope.
Open Scope Z_scope.

(** ** JavaScript values *)

Inductive ErrorClass :=
  ErrorC | TypeErrorC | DelayedErrorC | UnrecoverableErrorC | ZodErrorC.

Inductive value :=
| VUndef
| VNull
| VBool (b : bool)
| VNum (n : Z)
| VStr (s : string)
| VArr (xs : list value)
| VObj (fields : list (string * value))
| VError (c : ErrorClass) (message : string)
| VFun (name : string).

Global Instance ErrorClass_eq_dec : EqDecision ErrorClass.
Proof. solve_decision. Defined.

(** Own enumerable properties of a value that zod regards as an object. *)
Definition fields_of (v : value) : option (list (string * value)) :=
  match v with
  | VObj fs => Some fs
  | VError _ _ => Some []
  | _ => None
  end.

Fixpoint assoc (k : string) (fs : list (string * value)) : value :=
  match fs with
  | [] => VUndef
  | (k', v) :: fs' => if decide (k = k') then v else assoc k fs'
  end.

(** [v[k]], for a [v] that is neither [undefined] nor [null]. *)
Definition get_prop (v : value) (k : string) : value :=
  match v with
  | VObj fs => assoc k fs
  | VError _ m => if decide (k = "message") then VStr m else VUndef
  | _ => VUndef
  end.

(** The names of the members that a plain object inherits from
    [Object.prototype]. For a key [k] that is none of them, [o[k]] reads
    the own property [k] of a plain object [o], and [o[k] = v] defines it;
    for one of them, [o[k]] finds the inherited member when [o] has no own
    property [k], and [o["__proto__"] = v] sets the prototype of [o]. *)
Definition Object_prototype_members : list string :=
  ["constructor"; "__defineGetter__"; "__defineSetter__"; "hasOwnProperty";
   "__lookupGetter__"; "__lookupSetter__"; "isPrototypeOf";
   "propertyIsEnumerable"; "toString"; "valueOf"; "__proto__";
   "toLocaleString"].

(** A key on which a plain object is a map. *)
Definition ordinary_id (k : string) : bool :=
  negb (existsb (String.eqb k) Object_prototype_members).

(** [Number.isSafeInteger(n)]: an integer that is a number of JavaScript;
    [a + b] is the sum of the integers when [a], [b] and that sum are safe
    integers. *)
Definition safe_integer (n : Z) : bool :=
  (- (2 ^ 53 - 1) <=? n) && (n <=? 2 ^ 53 - 1).

(** [now + duration], as the source computes it, is the integer
    [now + duration]. *)
Definition exact_delay (now duration : Z) : bool :=
  safe_integer now && safe_integer duration && safe_integer (now + duration).

(** [!v] is [negb (truthy v)]. *)
Definition truthy (v : value) : bool :=
  match v with
  | VUndef | VNull => false
  | VBool b => b
  | VNum n => negb (n =? 0)
  | VStr s => negb (String.eqb s "")
  | _ => true
  end.

(** [a ?? b] *)
Definition nullish_coalesce (a b : value) : value :=
  match a with
  | VUndef | VNull => b
  | _ => a
  end.
Infix "??" := nullish_coalesce (at level 45, left associativity).

(** [v instanceof Error], [v instanceof DelayedError] *)
Definition instanceof_Error (v : value) : bool :=
  match v with VError _ _ => true | _ => false end.
Definition instanceof (c : ErrorClass) (v : value) : bool :=
  match v with VError c' _ => bool_decide (c' = c) | _ => false end.

(** A [number | null | undefined]. *)
Inductive nullish (A : Type) :=
| NAbsent
| NNull
| NSome (a : A).
Arguments NAbsent {A}.
Arguments NNull {A}.
Arguments NSome {A} a.

(** ** zod combinators

    A schema is its [parse] function; [None] stands for the [ZodError] that
    [parse] throws. *)

Definition schema (A : Type) := value → option A.

Definition z_any : schema value := Some.

Definition z_string : schema string :=
  λ v, match v with VStr s => Some s | _ => None end.

Definition z_number : schema Z :=
  λ v, match v with VNum n => Some n | _ => None end.

Definition z_boolean : schema bool :=
  λ v, match v with VBool b => Some b | _ => None end.

Definition z_default {A} (p : schema A) (d : A) : schema A :=
  λ v, match v with VUndef => Some d | _ => p v end.

Definition z_nullish {A} (p : schema A) : schema (nullish A) :=
  λ v, match v with
       | VUndef => Some NAbsent
       | VNull => Some NNull
       | _ => NSome <$> p v
       end.

Fixpoint enum_lookup {A} (s : string) (members : list (string * A)) : option A :=
  match members with
  | [] => None
  | (k, a) :: ms => if decide (s = k) then Some a else enum_lookup s ms
  end.

Definition z_enum {A} (members : list (string * A)) : schema A :=
  λ v, match v with VStr s => enum_lookup s members | _ => None end.

Definition z_array {A} (p : schema A) : schema (list A) :=
  λ v, match v with VArr xs => mapM p xs | _ => None end.

Definition z_record {A} (p : schema A) : schema (gmap string A) :=
  λ v, fs ← fields_of v;
       kvs ← mapM (λ kv, a ← p kv.2; Some (kv.1, a)) fs;
       Some (list_to_map kvs).

(** ** Dispatcher.ts: the priority slice of [ActionDispatcherConfigSchema]

    The other keys of the configuration (strategy, concurrency, retries,
    rate limit, debounce, delay, repeat, removal) only feed the options of
    the BullMQ queue and worker. *)

Module Config.

(** [z.input]: what the caller of [OpenQueue.action] writes. *)
Record PriorityInput := {
  in_enabled : bool;
  in_defaultValue : option Z;
  in_delayDefaultValue : option Z
}.
Record JobsInput := { in_priority : option PriorityInput }.
Record ActionDispatcherConfigInput := { in_jobs : option JobsInput }.

(** [z.infer]: what [ActionDispatcher] holds. *)
Record PriorityConfig := {
  enabled : bool;
  defaultValue : Z;
  delayDefaultValue : Z
}.
Record JobsConfig := { priority : option PriorityConfig }.
Record ActionDispatcherConfig := { jobs : JobsConfig }.

Definition PrioritySchema (i : PriorityInput) : PriorityConfig :=
  {| enabled := in_enabled i;
     defaultValue := default 2 (in_defaultValue i);
     delayDefaultValue := default 1 (in_delayDefaultValue i) |}.

Definition JobsSchema (i : JobsInput) : JobsConfig :=
  {| priority := PrioritySchema <$> in_priority i |}.

(** [ActionDispatcherConfigSchema.parse]; [jobs] has [.default({})]. *)
Definition ActionDispatcherConfigSchema
    (i : ActionDispatcherConfigInput) : ActionDispatcherConfig :=
  {| jobs := JobsSchema (default {| in_priority := None |} (in_jobs i)) |}.

End Config.

(** ** Job.ts *)

Module Job.

Inductive StatusData := pending | active | completed | failed.

Global Instance StatusData_eq_dec : EqDecision StatusData.
Proof. solve_decision. Defined.

Definition status_name (s : StatusData) : string :=
  match s with
  | pending => "pending"
  | active => "active"
  | completed => "completed"
  | failed => "failed"
  end.

Definition StatusSchema : schema StatusData :=
  z_enum [("pending", pending); ("active", active);
          ("completed", completed); ("failed", failed)].

Record StepStateData := {
  slug : string;
  status : StatusData;
  attempts : Z;
  data : value;
  error : value;
  result : value
}.

Definition StepStateSchema : schema StepStateData :=
  λ v, _ ← fields_of v;
       slug ← z_string (get_prop v "slug");
       status ← z_default StatusSchema pending (get_prop v "status");
       attempts ← z_default z_number 0 (get_prop v "attempts");
       data ← z_any (get_prop v "data");
       error ← z_any (get_prop v "error");
       result ← z_any (get_prop v "result");
       Some {| slug := slug; status := status; attempts := attempts;
               data := data; error := error; result := result |}.

Inductive AttemptType := job | step.
Inductive AttemptStatus := a_active | a_failed | a_completed.

Definition attempt_type_name (t : AttemptType) : string :=
  match t with job => "job" | step => "step" end.
Definition attempt_status_name (s : AttemptStatus) : string :=
  match s with
  | a_active => "active"
  | a_failed => "failed"
  | a_completed => "completed"
  end.

Record AttemptData := {
  a_type : AttemptType;
  a_status : AttemptStatus;
  a_name : string;
  a_start : Z;
  a_end : nullish Z;
  a_duration : nullish Z;
  a_error : value
}.

Definition AttemptSchema : schema AttemptData :=
  λ v, _ ← fields_of v;
       type ← z_enum [("job", job); ("step", step)] (get_prop v "type");
       status ← z_enum [("active", a_active); ("failed", a_failed);
                        ("completed", a_completed)] (get_prop v "status");
       name ← z_string (get_prop v "name");
       start ← z_number (get_prop v "start");
       end_ ← z_nullish z_number (get_prop v "end");
       duration ← z_nullish z_number (get_prop v "duration");
       error ← z_any (get_prop v "error");
       Some {| a_type := type; a_status := status; a_name := name;
               a_start := start; a_end := end_; a_duration := duration;
               a_error := error |}.

Record ActiveJobData := {
  source : value;
  __prepared : bool;
  __state : gmap string StepStateData;
  __attempts : list AttemptData;
  __step_attempts : list AttemptData
}.

Definition ActiveJobSchema : schema ActiveJobData :=
  λ v, _ ← fields_of v;
       source ← z_any (get_prop v "source");
       prepared ← z_default z_boolean false (get_prop v "__prepared");
       state ← z_default (z_record StepStateSchema) ∅ (get_prop v "__state");
       attempts ← z_default (z_array AttemptSchema) [] (get_prop v "__attempts");
       step_attempts ← z_default (z_array AttemptSchema) []
                         (get_prop v "__step_attempts");
       Some {| source := source; __prepared := prepared; __state := state;
               __attempts := attempts; __step_attempts := step_attempts |}.

(** The JavaScript object that a parsed payload is. *)

Definition nullish_to_value (n : nullish Z) : value :=
  match n with NAbsent => VUndef | NNull => VNull | NSome z => VNum z end.

Definition StepState_to_value (s : StepStateData) : value :=
  VObj [("slug", VStr (slug s));
        ("status", VStr (status_name (status s)));
        ("attempts", VNum (attempts s));
        ("data", data s);
        ("error", error s);
        ("result", result s)].

Definition Attempt_to_value (a : AttemptData) : value :=
  VObj [("type", VStr (attempt_type_name (a_type a)));
        ("status", VStr (attempt_status_name (a_status a)));
        ("name", VStr (a_name a));
        ("start", VNum (a_start a));
        ("end", nullish_to_value (a_end a));
        ("duration", nullish_to_value (a_duration a));
        ("error", a_error a)].

Definition ActiveJob_to_value (d : ActiveJobData) : value :=
  VObj [("source", source d);
        ("__prepared", VBool (__prepared d));
        ("__state",
         VObj ((λ kv, (kv.1, StepState_to_value kv.2)) <$> map_to_list (__state d)));
        ("__attempts", VArr (Attempt_to_value <$> __attempts d));
        ("__step_attempts", VArr (Attempt_to_value <$> __step_attempts d))].

(** [ActiveJob.parse] *)
Definition parse (input : value) : option ActiveJobData := ActiveJobSchema input.

(** [ActiveJob.prepare], on the payload held by the backend job: the new
    payload of the job and the value returned. *)
Definition prepare (original : value) : option (value * ActiveJobData) :=
  parsedOriginal ← parse original;
  if __prepared parsedOriginal then Some (original, parsedOriginal)
  else
    newData ← parse (VObj [("source", original); ("__prepared", VBool true)]);
    Some (ActiveJob_to_value newData, newData).

(** The BullMQ job: the payload it holds and the calls it has received,
    oldest first. *)
Inductive BackendCall :=
| bull_updateData (payload : value)
| bull_changePriority (priority : Z)
| bull_moveToDelayed (timestamp : Z) (token : option string).

Record BullJob := {
  bj_data : value;
  bj_calls : list BackendCall
}.

Definition call (c : BackendCall) (bj : BullJob) : BullJob :=
  {| bj_data := match c with bull_updateData p => p | _ => bj_data bj end;
     bj_calls := bj_calls bj ++ [c] |}.

(** The fields of [ActiveJob] other than the backend job, which is state. *)
Record ActiveJob := {
  bullToken : option string;
  config : Config.ActionDispatcherConfig;
  (** [dispatcher.schema.parse], the validator of the workflow input *)
  dispatcher_schema : schema value
}.

(** The constructor of [ActiveJob] calls [prepare], which assigns
    [bullJob.data] without a call to the backend. *)
Definition new_ActiveJob (bj : BullJob) : option BullJob :=
  p ← prepare (bj_data bj);
  Some {| bj_data := p.1; bj_calls := bj_calls bj |}.

Definition getParsedData (bj : BullJob) : option ActiveJobData :=
  parse (bj_data bj).

Definition getSourceData (j : ActiveJob) (bj : BullJob) : option value :=
  d ← getParsedData bj;
  dispatcher_schema j (source d).

Definition updateData (input : ActiveJobData) (bj : BullJob) : option BullJob :=
  parsedUpdatedData ← parse (ActiveJob_to_value input);
  Some (call (bull_updateData (ActiveJob_to_value parsedUpdatedData)) bj).

Definition getDefaultPriority (j : ActiveJob) : Z :=
  match Config.priority (Config.jobs (config j)) with
  | Some p => Config.defaultValue p
  | None => 2
  end.

Definition getDelayedPriority (j : ActiveJob) : Z :=
  match Config.priority (Config.jobs (config j)) with
  | Some p => Config.delayDefaultValue p
  | None => 1
  end.

End Job.

(** ** Template literals: [`${v}`] *)

Definition error_name (c : ErrorClass) : string :=
  match c with
  | ErrorC => "Error"
  | TypeErrorC => "TypeError"
  | DelayedErrorC => "DelayedError"
  | UnrecoverableErrorC => "UnrecoverableError"
  | ZodErrorC => "ZodError"
  end.

Fixpoint js_string (v : value) : string :=
  match v with
  | VUndef => "undefined"
  | VNull => "null"
  | VBool b => if b then "true" else "false"
  | VNum n => pretty n
  | VStr s => s
  | VArr xs =>
      (fix join (l : list value) : string :=
         match l with
         | [] => ""
         | x :: l' =>
             let e := match x with VUndef | VNull => "" | _ => js_string x end in
             match l' with [] => e | _ => e +:+ "," +:+ join l' end
         end) xs
  | VObj _ => "[object Object]"
  | VError c m =>
      if decide (m = "") then error_name c else error_name c +:+ ": " +:+ m
  | VFun name => "function " +:+ name +:+ "() { [native code] }"
  end.

Definition new_Error (message : string) : value := VError ErrorC message.
(** BullMQ chooses the message of its [DelayedError]; the engine never
    reads it. *)
Definition new_DelayedError : value := VError DelayedErrorC "".
Definition ZodError : value := VError ZodErrorC "".

(** ** The outside world of the step handlers *)

Class World (W : Type) := clock : W → Z.

(** How a call ends: with a value, or with a thrown value. *)
Inductive Res (A : Type) :=
| Ok (a : A)
| Throw (e : value).
Arguments Ok {A} a.
Arguments Throw {A} e.

(** A user function [() => Promise<any>]. *)
Definition Handler (W : Type) := W → Res value * W.

(** ** Effects: state and exceptions *)

Section Eff.
Context {S : Type}.

Definition Eff (A : Type) : Type := S → Res A * S.

Definition ret {A} (a : A) : Eff A := λ s, (Ok a, s).
Definition throw {A} (e : value) : Eff A := λ s, (Throw e, s).
Definition bind {A B} (c : Eff A) (k : A → Eff B) : Eff B :=
  λ s, match c s with
       | (Ok a, s') => k a s'
       | (Throw e, s') => (Throw e, s')
       end.
(** [c.catch(e => e)], and the shape of [try]/[catch]: how [c] ended. *)
Definition attempt_ {A} (c : Eff A) : Eff (Res A) :=
  λ s, let (r, s') := c s in (Ok r, s').
(** [try { c } finally { f }] *)
Definition finally_ {A} (c : Eff A) (f : Eff unit) : Eff A :=
  λ s, let (r, s') := c s in
       match f s' with
       | (Ok _, s'') => (r, s'')
       | (Throw e, s'') => (Throw e, s'')
       end.
Definition gets {A} (f : S → A) : Eff A := λ s, (Ok (f s), s).
Definition modify (f : S → S) : Eff unit := λ s, (Ok (), f s).

End Eff.
Arguments Eff S A : clear implicits.

Notation "'let!' x ':=' c 'in' k" := (bind c (λ x, k))
  (at level 10, x binder, c at level 100, k at level 200).
Notation "c ;; k" := (bind c (λ _, k))
  (at level 100, k at level 200, right associativity).

(** ** JobRunner.ts *)

Module JobRunner.
Import Job.

Inductive StepType :=
| t_step
| t_sleep
| t_sleep_until
| t_repeat
| t_invoke_wait_for_result.

Inductive RunnerPurpose := p_execute | p_analyze.

Global Instance RunnerPurpose_eq_dec : EqDecision RunnerPurpose.
Proof. solve_decision. Defined.

Inductive Level := l_debug | l_info | l_warn | l_error.

Record LogEntry := {
  level : Level;
  message : string;
  log_data : value
}.

(** *** ContextAttempt *)

Definition new_ContextAttempt (type : AttemptType) (name : string) (now : Z)
    : AttemptData :=
  {| a_type := type; a_status := a_active; a_name := name; a_start := now;
     a_end := NNull; a_duration := NAbsent; a_error := VNull |}.

Definition ContextAttempt_fail (e : value) (a : AttemptData) : AttemptData :=
  {| a_type := a_type a; a_status := a_failed; a_name := a_name a;
     a_start := a_start a; a_end := a_end a; a_duration := a_duration a;
     a_error := e |}.

Definition ContextAttempt_complete (now : Z) (a : AttemptData) : AttemptData :=
  {| a_type := a_type a; a_status := a_completed; a_name := a_name a;
     a_start := a_start a; a_end := NSome now; a_duration := a_duration a;
     a_error := a_error a |}.

(** [format] first stamps a missing [end] on the attempt itself, then
    returns the entry: the attempt as it is now, and the entry. *)
Definition ContextAttempt_format (now : Z) (a : AttemptData)
    : AttemptData * AttemptData :=
  let end_ := match a_end a with
              | NSome e => if e =? 0 then now else e
              | _ => now
              end in
  let a' := {| a_type := a_type a; a_status := a_status a; a_name := a_name a;
               a_start := a_start a; a_end := NSome end_;
               a_duration := a_duration a; a_error := a_error a |} in
  (a', {| a_type := a_type a; a_status := a_status a; a_name := a_name a;
          a_start := a_start a; a_end := NSome end_;
          a_duration := NSome (end_ - a_start a); a_error := a_error a |}).

Section Runner.
Context {W : Type} `{!World W}.

Inductive StepHandlerAlternatives :=
| AltStep (handler : Handler W)
| AltSleep (duration : Z)
| AltSleepUntil (timestamp : Z)
| AltRepeat (interval limit : Z)
| AltInvokeWaitForResult (action : value).

Definition type_of (a : StepHandlerAlternatives) : StepType :=
  match a with
  | AltStep _ => t_step
  | AltSleep _ => t_sleep
  | AltSleepUntil _ => t_sleep_until
  | AltRepeat _ _ => t_repeat
  | AltInvokeWaitForResult _ => t_invoke_wait_for_result
  end.

(** [RunnerStepOptions]; [runner], [ctx] and [job] are passed along by the
    functions below. A [StepRunner] is its options. *)
Record RunnerStepOptions := {
  id : string;
  alt : StepHandlerAlternatives
}.

Record RunnerContext := {
  logs : list LogEntry;
  jobAttempt : AttemptData;
  stepAttempts : list AttemptData;
  steps : list RunnerStepOptions
}.

Record JobRunner := {
  purpose : RunnerPurpose;
  job : ActiveJob
}.

(** What one invocation can change. *)
Record Machine := {
  bullJob : BullJob;
  world : W;
  ctx : RunnerContext
}.

Definition M (A : Type) : Type := Eff Machine A.

Definition with_bullJob (f : BullJob → BullJob) : M unit :=
  modify (λ m, {| bullJob := f (bullJob m); world := world m; ctx := ctx m |}).
Definition with_ctx (f : RunnerContext → RunnerContext) : M unit :=
  modify (λ m, {| bullJob := bullJob m; world := world m; ctx := f (ctx m) |}).
Definition Date_now : M Z := gets (λ m, clock (world m)).
(** [await handler()] *)
Definition call_handler (h : Handler W) : M value :=
  λ m, let (r, w') := h (world m) in
       (r, {| bullJob := bullJob m; world := w'; ctx := ctx m |}).
(** A fallible call of [Job.ts]; its [ZodError] is thrown. *)
Definition lift_parse {A} (f : BullJob → option A) : M A :=
  λ m, match f (bullJob m) with Some a => (Ok a, m) | None => (Throw ZodError, m) end.

(** *** ContextLogger *)

Definition log (lvl : Level) (msg : string) (d : value) : M unit :=
  with_ctx (λ c, {| logs := logs c ++ [{| level := lvl; message := msg; log_data := d |}];
                    jobAttempt := jobAttempt c; stepAttempts := stepAttempts c;
                    steps := steps c |}).
Definition log_debug := log l_debug.
Definition log_info := log l_info.
Definition log_warn := log l_warn.
Definition log_error := log l_error.

(** *** RunnerContext *)

Definition new_RunnerContext (now : Z) : RunnerContext :=
  {| logs := []; jobAttempt := new_ContextAttempt Job.job "job" now;
     stepAttempts := []; steps := [] |}.

Definition set_stepAttempts (l : list AttemptData) (c : RunnerContext) : RunnerContext :=
  {| logs := logs c; jobAttempt := jobAttempt c; stepAttempts := l; steps := steps c |}.

(** The attempt returned is shared with [ctx.stepAttempts]: the handle is
    its index there. *)
Definition _stepAttempt (slug : string) : M nat :=
  let! now := Date_now in
  λ m, let i := length (stepAttempts (ctx m)) in
       (with_ctx (λ c, set_stepAttempts
                         (stepAttempts c ++ [new_ContextAttempt Job.step ("step." +:+ slug) now]) c) ;;
        ret i) m.

Definition on_attempt (i : nat) (f : AttemptData → AttemptData) : M unit :=
  with_ctx (λ c, set_stepAttempts (alter f i (stepAttempts c)) c).

Definition _registerStep (s : RunnerStepOptions) : M unit :=
  with_ctx (λ c, {| logs := logs c; jobAttempt := jobAttempt c;
                    stepAttempts := stepAttempts c; steps := steps c ++ [s] |}).

Definition _formatAttempts : M (list AttemptData) :=
  let! now := Date_now in
  λ m, let fs := ContextAttempt_format now <$> stepAttempts (ctx m) in
       (with_ctx (set_stepAttempts (fst <$> fs)) ;; ret (snd <$> fs)) m.

Definition jobAttempt_format : M AttemptData :=
  let! now := Date_now in
  λ m, let (a', e) := ContextAttempt_format now (jobAttempt (ctx m)) in
       (with_ctx (λ c, {| logs := logs c; jobAttempt := a';
                          stepAttempts := stepAttempts c; steps := steps c |}) ;;
        ret e) m.

(** *** StepRunner *)

Inductive ExecuteStatus := no_run | ex_completed | ex_failed.

Record ExecuteResult := {
  er_status : ExecuteStatus;
  er_result : value;
  er_state : StepStateData;
  (** [error?]: no path of [execute] sets it *)
  er_error : value;
  (** [sleep?]: the bound [#runSleep] of the step *)
  er_sleep : option (M value)
}.

Definition set_status (s : StatusData) (st : StepStateData) : StepStateData :=
  {| slug := slug st; status := s; attempts := attempts st; data := data st;
     error := error st; result := result st |}.
Definition set_error (e : value) (st : StepStateData) : StepStateData :=
  {| slug := slug st; status := status st; attempts := attempts st; data := data st;
     error := e; result := result st |}.
Definition set_result (r : value) (st : StepStateData) : StepStateData :=
  {| slug := slug st; status := status st; attempts := attempts st; data := data st;
     error := error st; result := r |}.
Definition set___state (s : gmap string StepStateData) (d : ActiveJobData)
    : ActiveJobData :=
  {| source := source d; __prepared := __prepared d; __state := s;
     __attempts := __attempts d; __step_attempts := __step_attempts d |}.

Definition canRun (r : JobRunner) : bool := bool_decide (purpose r = p_execute).

(** [data.__state[this.id] || null], for an [id] that names no member of
    [Object.prototype] ([ordinary_id]): the own property, if there is one.
    (For the other names the source finds the inherited member, a function
    or [Object.prototype] itself, where [__state] has no such key.) *)
Definition getState (o : RunnerStepOptions) : M (option StepStateData) :=
  let! data := lift_parse getParsedData in
  ret (__state data !! id o).

(** [data.__state[this.id] = state], then [updateData(data)], for an [id]
    that names no member of [Object.prototype] and a [state] that is a step
    state: the assignment defines or replaces the own property. *)
Definition setState (o : RunnerStepOptions) (state : StepStateData) : M unit :=
  let! data := lift_parse getParsedData in
  let data := set___state (<[id o := state]> (__state data)) data in
  let! bj := lift_parse (updateData data) in
  with_bullJob (λ _, bj).

Definition runStep (o : RunnerStepOptions) : M value :=
  match alt o with
  | AltStep handler => call_handler handler
  | _ => throw (new_Error "Missing handler or type for #runStep()")
  end.

(** [#runSleep], for a duration that is an integer: [!duration] is then
    [duration = 0], and [Date.now() + duration] is the sum of the integers
    when they are safe integers ([exact_delay]). *)
Definition runSleep (r : JobRunner) (o : RunnerStepOptions) : M value :=
  match alt o with
  | AltSleep duration =>
      if duration =? 0 then throw (new_Error "Missing duration or type for #runSleep()")
      else
        let token := bullToken (job r) in
        let! now := Date_now in
        let timestamp := now + duration in
        log_info ("Sleeping for " +:+ pretty duration +:+ "ms. Token: "
                  +:+ default "undefined" token) VUndef ;;
        with_bullJob (call (bull_moveToDelayed timestamp token)) ;;
        throw new_DelayedError
  | _ => throw (new_Error "Missing duration or type for #runSleep()")
  end.

Definition execute (r : JobRunner) (o : RunnerStepOptions) : M ExecuteResult :=
  (*> Preparing for execution *)
  let runnable := canRun r in
  let! firstState := getState o in
  _registerStep o ;;
  (*> Pre-execution checks *)
  if negb runnable then
    log_info ("Step " +:+ id o +:+ " is not runnable") VUndef ;;
    throw (new_Error ("Step " +:+ id o +:+ " is not runnable"))
  else
  let executing : M ExecuteResult :=
    (*> Executing *)
    let! attempt := _stepAttempt (id o) in
    let! state := getState o in
    match state with
    | None => throw (new_Error ("Step " +:+ id o +:+ " has no state"))
    | Some state =>
        match type_of (alt o) with
        | t_sleep =>
            let state := set_result VNull (set_status completed state) in
            setState o state ;;
            (*> Altering the priority of the job *)
            with_bullJob (call (bull_changePriority (getDelayedPriority (job r)))) ;;
            ret {| er_status := ex_completed; er_result := VNull; er_state := state;
                   er_error := VUndef; er_sleep := Some (runSleep r o) |}
        | t_step =>
            let! ran := attempt_ (let! result := runStep o in
                                  let! now := Date_now in
                                  on_attempt attempt (ContextAttempt_complete now) ;;
                                  log_debug ("Step " +:+ id o +:+ " finished") VUndef ;;
                                  ret result) in
            match ran with
            | Ok result =>
                let state := set_result result (set_status completed state) in
                setState o state ;;
                ret {| er_status := ex_completed; er_result := result; er_state := state;
                       er_error := VUndef; er_sleep := None |}
            | Throw e =>
                log_debug ("Step " +:+ id o +:+ " has thrown an error.") e ;;
                on_attempt attempt (ContextAttempt_fail e) ;;
                let state := set_result VNull (set_error e (set_status failed state)) in
                setState o state ;;
                ret {| er_status := ex_failed; er_result := VNull; er_state := state;
                       er_error := VUndef; er_sleep := None |}
            end
        | _ => throw (new_Error ("Unknown step type " +:+
                 match type_of (alt o) with
                 | t_sleep_until => "sleep-until"
                 | t_repeat => "repeat"
                 | _ => "invoke-wait-for-result"
                 end))
        end
    end in
  match firstState with
  | Some fs =>
      if decide (status fs = completed) then
        log_info ("Step " +:+ id o +:+ " is already completed") VUndef ;;
        ret {| er_status := no_run; er_result := result fs; er_state := fs;
               er_error := VUndef; er_sleep := None |}
      else executing
  | None =>
      log_info ("First time running step " +:+ id o +:+ ", saving step to state") VUndef ;;
      setState o {| slug := id o; status := pending; attempts := 0; data := VNull;
                    error := VNull; result := VUndef |} ;;
      executing
  end.

(** *** JobRunner *)

Record PrepareStepResult := {
  isCanRun : bool;
  isCompleted : bool;
  isExecutable : bool;
  state : option StepStateData;
  step_ : RunnerStepOptions
}.

(** What [await prepared.step.execute().catch(e => e)] evaluates to. *)
Inductive Executed :=
| Returned (r : ExecuteResult)
| Caught (e : value).

Record ExecuteStepResult := {
  success : bool;
  ran : bool;
  prepared : PrepareStepResult;
  cachedResult : value;
  executedResult : option Executed
}.

Definition execute_status_name (s : ExecuteStatus) : string :=
  match s with
  | no_run => "no-run"
  | ex_completed => "completed"
  | ex_failed => "failed"
  end.

(** The object an [ExecuteResult] is, without its function member. *)
Definition ExecuteResult_to_value (r : ExecuteResult) : value :=
  VObj [("status", VStr (execute_status_name (er_status r)));
        ("result", er_result r);
        ("state", StepState_to_value (er_state r));
        ("error", er_error r)].

Definition Executed_to_value (x : Executed) : value :=
  match x with Returned r => ExecuteResult_to_value r | Caught e => e end.

(** [x.status === name] *)
Definition Executed_status_is (name : string) (x : Executed) : bool :=
  match x with
  | Returned r => bool_decide (execute_status_name (er_status r) = name)
  | Caught e =>
      match get_prop e "status" with
      | VStr s => bool_decide (s = name)
      | _ => false
      end
  end.

Definition Executed_error (x : Executed) : value :=
  match x with Returned r => er_error r | Caught e => get_prop e "error" end.

Definition Executed_result (x : Executed) : value :=
  match x with Returned r => er_result r | Caught e => get_prop e "result" end.

Definition Executed_falsy (x : Executed) : bool :=
  match x with Returned _ => false | Caught e => negb (truthy e) end.

Definition prepareStep (r : JobRunner) (o : RunnerStepOptions) : M PrepareStepResult :=
  let isCanRun := canRun r in
  let! s := getState o in
  let isCompleted := match s with
                     | Some st => bool_decide (status st = completed)
                     | None => false
                     end in
  let! state := getState o in
  ret {| isCanRun := isCanRun; isCompleted := isCompleted;
         isExecutable := isCanRun && negb isCompleted;
         state := state; step_ := o |}.

Definition executeStep (r : JobRunner) (o : RunnerStepOptions) : M ExecuteStepResult :=
  let! prepared := prepareStep r o in
  if negb (isExecutable prepared) then
    match state prepared with
    | Some st =>
        if decide (status st = completed) then
          log_info ("Step " +:+ id o +:+ " is already completed") VUndef ;;
          ret {| success := true; ran := false; prepared := prepared;
                 cachedResult := result st ?? VNull; executedResult := None |}
        else throw (new_Error ("Step " +:+ id o +:+ " is not runnable"))
    | None => throw (new_Error ("Step " +:+ id o +:+ " is not runnable"))
    end
  else
    let! result := attempt_ (execute r (step_ prepared)) in
    let result := match result with Ok x => Returned x | Throw e => Caught e end in
    if Executed_falsy result || Executed_status_is "failed" result then
      log_debug ("Step " +:+ id o +:+ " has thrown an error.") (Executed_to_value result) ;;
      throw (new_Error ("Step " +:+ id o +:+ " failed."))
    else if negb (Executed_status_is "completed" result)
            && instanceof_Error (Executed_error result) then
      throw (Executed_to_value result)
    else
      ret {| success := true; ran := true; prepared := prepared;
             cachedResult := VUndef; executedResult := Some result |}.

(** [runner.step({ id }, handler)] *)
Definition step (r : JobRunner) (options_id : string) (handler : Handler W) : M value :=
  let! execution := executeStep r {| id := options_id; alt := AltStep handler |} in
  if negb (success execution) then
    throw (new_Error ("Step " +:+ options_id +:+ " failed. Error: " +:+
                      js_string (from_option Executed_error VUndef
                                   (executedResult execution))))
  else
    ret (cachedResult execution
         ?? from_option Executed_result VUndef (executedResult execution)).

(** [runner.sleep({ id }, duration)] *)
Definition sleep (r : JobRunner) (options_id : string) (duration : Z) : M value :=
  let! execution := executeStep r {| id := options_id; alt := AltSleep duration |} in
  if success execution && ran execution then
    match executedResult execution with
    | Some (Returned x) =>
        match er_sleep x with
        | Some runSleep => runSleep
        | None => throw (new_Error ("Expected step " +:+ options_id
                                    +:+ " to have a sleep function."))
        end
    | Some (Caught e) =>
        if truthy (get_prop e "sleep")
        then throw (VError TypeErrorC "execution.executedResult.sleep is not a function")
        else throw (new_Error ("Expected step " +:+ options_id
                               +:+ " to have a sleep function."))
    | None => throw (new_Error ("Expected step " +:+ options_id
                                +:+ " to have a sleep function."))
    end
  else if success execution && negb (ran execution) then ret VUndef
  else throw (new_Error ("Sleep step " +:+ options_id +:+ " failed.")).

End Runner.

Arguments StepHandlerAlternatives W : clear implicits.
Arguments RunnerStepOptions W : clear implicits.
Arguments RunnerContext W : clear implicits.
Arguments Machine W : clear implicits.
Arguments M W A : clear implicits.
Arguments ExecuteResult W : clear implicits.
Arguments Executed W : clear implicits.
Arguments PrepareStepResult W : clear implicits.
Arguments ExecuteStepResult W : clear implicits.

End JobRunner.

(** ** Dispatcher.ts *)

Module Dispatcher.
Import Job JobRunner.

Section Dispatch.
Context {W : Type} `{!World W}.

(** The workflow function, as the sequence of runtime calls it makes. A
    workflow of this shape does not catch what [step] and [sleep] throw. *)
Inductive Workflow :=
| Return (v : value)
| Raise (e : value)
| Step (id : string) (handler : Handler W) (k : value → Workflow)
| Sleep (id : string) (duration : Z) (k : Workflow)
| Log (lvl : Level) (msg : string) (d : value) (k : Workflow).

(** [ActionHandler<T>], applied to its [data]. *)
Definition ActionHandler := value → Workflow.

Record ActionDispatcher := {
  handler : ActionHandler;
  schema_ : schema value;
  dispatcher_config : Config.ActionDispatcherConfig
}.

Fixpoint run (r : JobRunner) (wf : Workflow) : M W value :=
  match wf with
  | Return v => ret v
  | Raise e => throw e
  | Step id h k => let! v := step r id h in run r (k v)
  | Sleep id d k => sleep r id d ;; run r k
  | Log lvl msg d k => log lvl msg d ;; run r k
  end.

(** The [try] block that ends [processJob]. *)
Definition finalize : M W unit :=
  let! data := lift_parse getParsedData in
  let! formatted := _formatAttempts in
  let! jobEntry := jobAttempt_format in
  let data := {| source := source data; __prepared := __prepared data;
                 __state := __state data;
                 __attempts := __attempts data ++ [jobEntry];
                 __step_attempts := __step_attempts data ++ formatted |} in
  let! bj := lift_parse (updateData data) in
  with_bullJob (λ _, bj).

Definition processJob (d : ActionDispatcher) (bullToken : option string) : M W value :=
  let activeJob := {| Job.bullToken := bullToken; config := dispatcher_config d;
                      dispatcher_schema := schema_ d |} in
  let! bj := lift_parse new_ActiveJob in
  with_bullJob (λ _, bj) ;;
  let runner := {| purpose := p_execute; job := activeJob |} in
  let! now := Date_now in
  with_ctx (λ _, new_RunnerContext now) ;;
  let! data := lift_parse (getSourceData activeJob) in
  let! handlerResult := run runner (handler d data) in
  (* try { ... } catch (e) { console.log(...) } *)
  attempt_ finalize ;;
  ret handlerResult.

(** [#formatNewJobData]: the payload that [addJob] enqueues. *)
Definition formatNewJobData (data : value) : option ActiveJobData :=
  ActiveJobSchema (VObj [("source", data); ("__prepared", VBool true)]).

(** The machine a worker starts an invocation on. *)
Definition boot (bj : BullJob) (w : W) : Machine W :=
  {| bullJob := bj; world := w; ctx := new_RunnerContext (clock w) |}.

End Dispatch.

Arguments Workflow W : clear implicits.
Arguments ActionHandler W : clear implicits.
Arguments ActionDispatcher W : clear implicits.

End Dispatcher.

(** ** execution/executor.ts

    [ActiveJobExecutor] and [StepExecutor] are embedded from the source. The
    modules they import ([execution/job-state.ts], [execution/ctx.ts],
    [execution/job.ts], [management/workflow.ts]) are not part of the
    sources at hand; what the executor needs of them is modelled from the
    specification, and marked so. *)

Module Executor.

(** Modelled from the spec: the status of a step of [job-state.ts], missing
    from the sources (section 3, StepState: one of pending, active, delayed,
    completed, failed). *)
Inductive Status := pending | active | delayed | completed | failed.

Global Instance Status_eq_dec : EqDecision Status.
Proof. solve_decision. Defined.

Definition status_name (s : Status) : string :=
  match s with
  | pending => "pending"
  | active => "active"
  | delayed => "delayed"
  | completed => "completed"
  | failed => "failed"
  end.

(** Modelled from the spec: the step record of [job-state.ts] (section 3,
    StepState). *)
Record StepState := {
  slug : string;
  status : Status;
  attempts : Z;
  data : value;
  result : value;
  error : value
}.

(** Modelled from the spec: the job record of [job-state.ts] (section 3,
    JobState); [__logs] is the field that [wrapUp] pushes to. *)
Record JobState := {
  source : value;
  prepared : bool;
  steps : gmap string StepState;
  jobAttempts : list Job.AttemptData;
  stepAttempts : list Job.AttemptData;
  __logs : list JobRunner.LogEntry
}.

(** Modelled from the spec: the backend contract of section 6, as far as
    [job.ts] and [job-state.ts] (both missing) call it. *)
Inductive BackendCall :=
| updateJobData (payload : JobState)
| delayUntil (timestampMs : Z).

Section Exec.
Context {W : Type} `{!World W}.

(** The three job-level transitions of [JobStateManager] that [execute]
    calls belong to the missing [job-state.ts]; the executor is embedded
    for any such transitions. *)
Context (JobStateManager_start JobStateManager_complete JobStateManager_finish
         : JobState → JobState).

Record Machine := {
  (** [state.data], shared by the job and step state managers *)
  state_data : JobState;
  (** [ctx.__logs] *)
  ctx___logs : list JobRunner.LogEntry;
  backend : list BackendCall;
  world : W
}.

Definition M (A : Type) : Type := Eff Machine A.

Definition with_state_data (f : JobState → JobState) : M unit :=
  modify (λ m, {| state_data := f (state_data m); ctx___logs := ctx___logs m;
                  backend := backend m; world := world m |}).
Definition backend_call (c : BackendCall) : M unit :=
  modify (λ m, {| state_data := state_data m; ctx___logs := ctx___logs m;
                  backend := backend m ++ [c]; world := world m |}).
Definition Date_now : M Z := gets (λ m, clock (world m)).
Definition call_handler (h : Handler W) : M value :=
  λ m, let (r, w') := h (world m) in
       (r, {| state_data := state_data m; ctx___logs := ctx___logs m;
              backend := backend m; world := w' |}).

(** Modelled from the spec: [ExecutionContext.log] of [ctx.ts] (section
    4.4: entries are buffered in memory). *)
Definition ctx_log (lvl : JobRunner.Level) (msg : string) (d : value) : M unit :=
  modify (λ m, {| state_data := state_data m;
                  ctx___logs := ctx___logs m ++
                    [{| JobRunner.level := lvl; JobRunner.message := msg;
                        JobRunner.log_data := d |}];
                  backend := backend m; world := world m |}).

(** *** Step state manager *)

Definition set_steps (s : gmap string StepState) (d : JobState) : JobState :=
  {| source := source d; prepared := prepared d; steps := s;
     jobAttempts := jobAttempts d; stepAttempts := stepAttempts d;
     __logs := __logs d |}.

Definition set_status (s : Status) (st : StepState) : StepState :=
  {| slug := slug st; status := s; attempts := attempts st; data := data st;
     result := result st; error := error st |}.

(** Modelled from the spec: [JobStateManager.forStep] and
    [StepStateManager.data] of [job-state.ts]: the state of the step, which
    for a step not met before is a pending one. *)
Definition fresh (id : string) : StepState :=
  {| slug := id; status := pending; attempts := 0; data := VNull;
     result := VUndef; error := VNull |}.
Definition stepState_data (id : string) : M StepState :=
  gets (λ m, default (fresh id) (steps (state_data m) !! id)).
Definition stepState_write (id : string) (st : StepState) : M unit :=
  with_state_data (λ d, set_steps (<[id := st]> (steps d)) d).

(** Modelled from the spec: [StepStateManager.start] (section 4.2:
    creates the state, pending then active, if absent, else leaves the
    existing state untouched). *)
Definition stepState_start (id : string) : M unit :=
  with_state_data (λ d, match steps d !! id with
                        | Some _ => d
                        | None => set_steps (<[id := set_status active (fresh id)]> (steps d)) d
                        end).

(** Modelled from the spec: [StepStateManager.complete] (section 4.2:
    sets status completed, stores the result, clears the error). *)
Definition stepState_complete (id : string) (r : value) : M unit :=
  let! st := stepState_data id in
  stepState_write id {| slug := slug st; status := completed; attempts := attempts st;
                        data := data st; result := r; error := VNull |}.

(** Modelled from the spec: [StepStateManager.error] (section 4.2, fail:
    sets status failed, stores the error, increments attempts). *)
Definition stepState_error (id : string) (e : value) : M unit :=
  let! st := stepState_data id in
  stepState_write id {| slug := slug st; status := failed; attempts := attempts st + 1;
                        data := data st; result := result st; error := e |}.

(** [stepState.data.status = s] *)
Definition stepState_set_status (id : string) (s : Status) : M unit :=
  let! st := stepState_data id in
  stepState_write id (set_status s st).

(** Modelled from the spec: [ActiveJob.delay] of [job.ts] (section 4.5:
    the backend reschedules the job no earlier than now + duration). *)
Definition job_delay (duration : Z) : M unit :=
  let! now := Date_now in
  backend_call (delayUntil (now + duration)).

(** Modelled from the spec: [JobStateManager.getSourceData] of
    [job-state.ts] (section 4.6: the workflow function is given
    [JobState.source] as its data). *)
Definition state_getSourceData : M value :=
  gets (λ m, source (state_data m)).

(** Modelled from the spec: [JobStateManager.updateData] of [job-state.ts]
    (section 4.1, save: persists the full structure through the backend). *)
Definition state_updateData : M unit :=
  let! d := gets state_data in
  backend_call (updateJobData d).

(** *** StepExecutor *)

Record ExecuteStepResult := {
  success : bool;
  ran : bool;
  result_ : value
}.

(** [e?.toString() ?? "N/A"] and [e?.toString ?? null] *)
Definition toString_or_NA (e : value) : string :=
  match e with VUndef | VNull => "N/A" | _ => js_string e end.
Definition toString_member (e : value) : value :=
  match e with VUndef | VNull => VNull | _ => VFun "toString" end.

Definition executeRun (id : string) (run : Handler W) : M ExecuteStepResult :=
  let! stepState := stepState_data id in
  if decide (status stepState = completed) then
    ctx_log JobRunner.l_debug
      ("Skipping step " +:+ id +:+ " as it is already completed") VUndef ;;
    ret {| success := true; ran := false; result_ := result stepState |}
  else
    ctx_log JobRunner.l_debug ("Executing step " +:+ id) VUndef ;;
    finally_
      (let! r := attempt_ (let! stepResult := call_handler run in
                           stepState_complete id stepResult ;;
                           ret {| success := true; ran := true; result_ := stepResult |}) in
       match r with
       | Ok x => ret x
       | Throw e =>
           ctx_log JobRunner.l_error
             ("An error occurred for step " +:+ id +:+ ", error: " +:+ toString_or_NA e)
             (VObj [("error", toString_member e)]) ;;
           stepState_error id e ;;
           throw e
       end)
      (ctx_log JobRunner.l_debug
         ("Step " +:+ id +:+ " finished (regardless of status)") VUndef).

Definition executeSleep (id : string) (duration : Z) : M ExecuteStepResult :=
  let! stepState := stepState_data id in
  if decide (status stepState = delayed) then
    (* Already put for sleep, this time we can mark it as complete *)
    stepState_complete id (VBool true) ;;
    ret {| success := true; ran := true; result_ := VBool true |}
  else
    (* Time to put it to sleep *)
    stepState_start id ;;
    stepState_set_status id delayed ;;
    (* Moving job to delayed until specified timestamp *)
    job_delay duration ;;
    throw new_DelayedError.

Definition executeSleepUntil (id : string) (timestamp : Z) : M ExecuteStepResult :=
  let! now := Date_now in
  executeSleep id (timestamp - now).

(** *** ActiveJobExecutor *)

(** The workflow function, as the sequence of executor calls it makes. *)
Inductive WorkflowFn :=
| Return (v : value)
| Raise (e : value)
| Run (id : string) (run : Handler W) (k : value → WorkflowFn)
| Sleep (id : string) (duration : Z) (k : WorkflowFn)
| SleepUntil (id : string) (timestamp : Z) (k : WorkflowFn)
| Log (lvl : JobRunner.Level) (msg : string) (d : value) (k : WorkflowFn).

Record Workflow := {
  __id : string;
  __fn : value → WorkflowFn
}.

Fixpoint run_fn (f : WorkflowFn) : M value :=
  match f with
  | Return v => ret v
  | Raise e => throw e
  | Run id h k => let! x := executeRun id h in run_fn (k (result_ x))
  | Sleep id d k => executeSleep id d ;; run_fn k
  | SleepUntil id t k => executeSleepUntil id t ;; run_fn k
  | Log lvl msg d k => ctx_log lvl msg d ;; run_fn k
  end.

Definition wrapUp : M unit :=
  let! logs := gets ctx___logs in
  with_state_data (λ d, {| source := source d; prepared := prepared d; steps := steps d;
                           jobAttempts := jobAttempts d; stepAttempts := stepAttempts d;
                           __logs := __logs d ++ logs |}).

Definition execute (workflow : Workflow) : M value :=
  finally_
    (let! r := attempt_
                 ((*> Starting execution *)
                  ctx_log JobRunner.l_debug
                    ("Started execution of workflow " +:+ __id workflow) VUndef ;;
                  with_state_data JobStateManager_start ;;
                  let! data := state_getSourceData in
                  let! workflowResult := run_fn (__fn workflow data) in
                  (*> Marking execution as complete *)
                  with_state_data JobStateManager_complete ;;
                  ctx_log JobRunner.l_debug
                    ("Execution of workflow " +:+ __id workflow +:+ " completed") VUndef ;;
                  ret workflowResult) in
     match r with
     | Ok workflowResult => ret workflowResult
     | Throw e =>
         if instanceof DelayedErrorC e then ret VUndef
         else if instanceof UnrecoverableErrorC e then ret VUndef
         else
           ctx_log JobRunner.l_error
             ("An error occurred for workflow " +:+ __id workflow +:+ ", error: "
              +:+ toString_or_NA e)
             (VObj [("error", toString_member e)]) ;;
           ret VUndef
     end)
    (wrapUp ;;
     with_state_data JobStateManager_finish ;;
     state_updateData).

End Exec.

Arguments Machine W : clear implicits.
Arguments M W A : clear implicits.
Arguments WorkflowFn W : clear implicits.
Arguments Workflow W : clear implicits.

End Executor.

(** ** Object literals

    The members of an object literal are evaluated left to right; a key
    that is defined again takes the new value and keeps its place. *)

Fixpoint define_prop (k : string) (v : value) (fs : list (string * value))
    : list (string * value) :=
  match fs with
  | [] => [(k, v)]
  | (k', v') :: fs' =>
      if decide (k = k') then (k, v) :: fs' else (k', v') :: define_prop k v fs'
  end.

(** [{ ...fs, ...src }] copies the own enumerable properties of [src]:
    those of an object, the elements of an array and the characters of a
    string under their indices, and nothing for any other value. (JavaScript
    lists keys that are array indices before the other keys; the object
    literals of the sources spread objects, [undefined], [false] and the
    empty string only.) *)
Definition indexed (xs : list value) : list (string * value) :=
  imap (λ i x, (pretty (Z.of_nat i), x)) xs.

Fixpoint characters (s : string) : list value :=
  match s with
  | EmptyString => []
  | String c s' => VStr (String c EmptyString) :: characters s'
  end.

Definition own_properties (src : value) : list (string * value) :=
  match src with
  | VObj s => s
  | VArr xs => indexed xs
  | VStr s => indexed (characters s)
  | _ => []
  end.

Definition spread (src : value) (fs : list (string * value)) : list (string * value) :=
  foldl (λ acc kv, define_prop kv.1 kv.2 acc) fs (own_properties src).

Inductive member :=
| Member (k : string) (v : value)
| Spread (src : value).

Definition object_literal (ms : list member) : value :=
  VObj (foldl (λ fs mb, match mb with
                        | Member k v => define_prop k v fs
                        | Spread src => spread src fs
                        end) [] ms).

(** [a && b] *)
Definition js_and (a b : value) : value := if truthy a then b else a.

(** ** Dispatcher.ts: the whole of [ActionDispatcherConfigSchema] *)

Module FullConfig.

Inductive Strategy := fifo | lifo.
Inductive Backoff := exponential | fixed.
(** ["fixed" | "extended"] *)
Inductive Mode := mode_fixed | mode_extended.

Global Instance Strategy_eq_dec : EqDecision Strategy.
Proof. solve_decision. Defined.

Definition backoff_name (b : Backoff) : string :=
  match b with exponential => "exponential" | fixed => "fixed" end.

(** [z.input]: every key with a default may be left out. *)
Record ConcurrencyInput := {
  in_concurrency_enabled : option bool;
  in_local : option Z;
  in_global : option Z
}.
Record RetriesInput := {
  in_retries_enabled : option bool;
  in_max : option Z;
  in_retries_delay : option Z;
  in_backoff : option Backoff
}.
Record RateLimitInput := {
  in_rateLimit_enabled : option bool;
  in_amount : Z;
  in_rateLimit_duration : Z;
  in_onKey : nullish string
}.
Record DebounceInput := {
  in_debounce_strategy : option Mode;
  in_debounce_enabled : option bool;
  in_ttl : Z;
  in_debounce_key : string
}.
Record DelayInput := {
  in_delay_enabled : option bool;
  in_delay_strategy : option Mode;
  in_delay_duration : Z;
  in_delay_key : string
}.
Record RepeatInput := {
  in_repeat_enabled : option bool;
  in_every : Z;
  in_limit : Z;
  in_repeat_key : nullish string
}.
Record JobsInput := {
  in_strategy : option Strategy;
  in_concurrency : option ConcurrencyInput;
  in_retries : option RetriesInput;
  in_rateLimit : option RateLimitInput;
  in_debounce : option DebounceInput;
  in_delay : option DelayInput;
  in_repeat : option RepeatInput;
  in_priority : option Config.PriorityInput
}.
(** [removal.onComplete] and [removal.onFail]: all keys optional, no
    defaults, so input and output agree. *)
Record RemovalRule := {
  always : option bool;
  age : option Z;
  count : option Z
}.
Record Removal := {
  onComplete : option RemovalRule;
  onFail : option RemovalRule
}.
Record ActionDispatcherConfigInput := {
  in_jobs : option JobsInput;
  in_removal : option Removal
}.

(** [z.infer] *)
Record Concurrency := {
  concurrency_enabled : bool;
  local : Z;
  global : option Z
}.
Record Retries := {
  retries_enabled : bool;
  max : Z;
  retries_delay : Z;
  backoff : Backoff
}.
Record RateLimit := {
  rateLimit_enabled : bool;
  amount : Z;
  rateLimit_duration : Z;
  onKey : nullish string
}.
Record Debounce := {
  debounce_strategy : Mode;
  debounce_enabled : bool;
  ttl : Z;
  debounce_key : string
}.
Record Delay := {
  delay_enabled : bool;
  delay_strategy : Mode;
  delay_duration : Z;
  delay_key : string
}.
Record Repeat := {
  repeat_enabled : bool;
  every : Z;
  limit : Z;
  repeat_key : nullish string
}.
Record Jobs := {
  strategy : Strategy;
  concurrency : option Concurrency;
  retries : option Retries;
  rateLimit : option RateLimit;
  debounce : option Debounce;
  delay : option Delay;
  repeat_ : option Repeat;
  priority : option Config.PriorityConfig
}.
Record ActionDispatcherConfig := {
  jobs : Jobs;
  removal : Removal
}.

Definition ConcurrencySchema (i : ConcurrencyInput) : Concurrency :=
  {| concurrency_enabled := default true (in_concurrency_enabled i);
     local := default 1 (in_local i);
     global := in_global i |}.

Definition RetriesSchema (i : RetriesInput) : Retries :=
  {| retries_enabled := default true (in_retries_enabled i);
     max := default 3 (in_max i);
     retries_delay := default 1000 (in_retries_delay i);
     backoff := default exponential (in_backoff i) |}.

Definition RateLimitSchema (i : RateLimitInput) : RateLimit :=
  {| rateLimit_enabled := default true (in_rateLimit_enabled i);
     amount := in_amount i;
     rateLimit_duration := in_rateLimit_duration i;
     onKey := in_onKey i |}.

Definition DebounceSchema (i : DebounceInput) : Debounce :=
  {| debounce_strategy := default mode_fixed (in_debounce_strategy i);
     debounce_enabled := default true (in_debounce_enabled i);
     ttl := in_ttl i;
     debounce_key := in_debounce_key i |}.

Definition DelaySchema (i : DelayInput) : Delay :=
  {| delay_enabled := default true (in_delay_enabled i);
     delay_strategy := default mode_fixed (in_delay_strategy i);
     delay_duration := in_delay_duration i;
     delay_key := in_delay_key i |}.

Definition RepeatSchema (i : RepeatInput) : Repeat :=
  {| repeat_enabled := default true (in_repeat_enabled i);
     every := in_every i;
     limit := in_limit i;
     repeat_key := in_repeat_key i |}.

Definition JobsSchema (i : JobsInput) : Jobs :=
  {| strategy := default fifo (in_strategy i);
     concurrency := ConcurrencySchema <$> in_concurrency i;
     retries := RetriesSchema <$> in_retries i;
     rateLimit := RateLimitSchema <$> in_rateLimit i;
     debounce := DebounceSchema <$> in_debounce i;
     delay := DelaySchema <$> in_delay i;
     repeat_ := RepeatSchema <$> in_repeat i;
     priority := Config.PrioritySchema <$> in_priority i |}.

Definition empty_jobs : JobsInput :=
  {| in_strategy := None; in_concurrency := None; in_retries := None;
     in_rateLimit := None; in_debounce := None; in_delay := None;
     in_repeat := None; in_priority := None |}.
Definition empty_removal : Removal := {| onComplete := None; onFail := None |}.
Definition empty_config : ActionDispatcherConfigInput :=
  {| in_jobs := None; in_removal := None |}.

(** [ActionDispatcherConfigSchema.parse]; the schema, [jobs] and [removal]
    each have [.default({})]. *)
Definition ActionDispatcherConfigSchema (config : option ActionDispatcherConfigInput)
    : ActionDispatcherConfig :=
  let i := default empty_config config in
  {| jobs := JobsSchema (default empty_jobs (in_jobs i));
     removal := default empty_removal (in_removal i) |}.

(** The part of the configuration that [ActiveJob] reads. *)
Definition priority_slice (c : ActionDispatcherConfig) : Config.ActionDispatcherConfig :=
  {| Config.jobs := {| Config.priority := priority (jobs c) |} |}.

End FullConfig.

(** ** Dispatcher.ts: queue and worker *)

Module Queueing.
Import FullConfig.

(** [always ?? age ?? count ?? false] *)
Definition removeOn (rule : option RemovalRule) : value :=
  let always_ := match rule with
                 | Some r => from_option VBool VUndef (always r)
                 | None => VUndef
                 end in
  let age_ := match rule with
              | Some r => from_option VNum VUndef (age r)
              | None => VUndef
              end in
  let count_ := match rule with
                | Some r => from_option VNum VUndef (count r)
                | None => VUndef
                end in
  always_ ?? age_ ?? count_ ?? VBool false.

(** [o?.enabled], for an optional part [o] of the configuration. *)
Definition enabled_of {A} (enabled : A → bool) (o : option A) : value :=
  from_option (λ a, VBool (enabled a)) VUndef o.

(** [#queueOptions] *)
Definition queueOptions (config : ActionDispatcherConfig) : value :=
  let j := jobs config in
  object_literal [
    Member "defaultJobOptions" (object_literal [
      Member "removeOnComplete" (removeOn (onComplete (removal config)));
      Member "removeOnFail" (removeOn (onFail (removal config)));
      Member "attempts"
        (if truthy (enabled_of retries_enabled (retries j))
         then from_option (λ r, VNum (max r)) VUndef (retries j) else VNum 0);
      Spread (js_and (enabled_of retries_enabled (retries j))
                (object_literal [
                   Member "backoff" (object_literal [
                     Member "type"
                       (from_option (λ r, VStr (backoff_name (backoff r))) VUndef (retries j));
                     Member "delay"
                       (from_option (λ r, VNum (retries_delay r)) VUndef (retries j))])]));
      Member "delay"
        (if truthy (enabled_of delay_enabled (delay j))
         then from_option (λ d, VNum (delay_duration d)) VUndef (delay j) else VNum 0);
      Member "lifo" (VBool (bool_decide (strategy j = lifo)));
      Member "priority"
        (if truthy (enabled_of Config.enabled (priority j))
         then from_option (λ p, VNum (Config.defaultValue p)) VUndef (priority j)
         else VNum 0)])].

Definition nullish_string_to_value (n : nullish string) : value :=
  match n with NAbsent => VUndef | NNull => VNull | NSome s => VStr s end.

(** [#workerOptions]; the right operand of each [&&] reads the part of the
    configuration that the left operand has found present. *)
Definition workerOptions (config : ActionDispatcherConfig) : value :=
  let j := jobs config in
  object_literal [
    (* The user should explicitly start the worker *)
    Member "autorun" (VBool false);
    Member "concurrency"
      (if truthy (enabled_of concurrency_enabled (concurrency j))
       then from_option (λ c, VNum (local c)) VUndef (concurrency j) else VNum 1);
    Spread (match rateLimit j with
            | Some rl =>
                js_and (VBool (rateLimit_enabled rl))
                  (object_literal [
                     Member "limiter" (object_literal [
                       Member "max" (VNum (amount rl));
                       Member "duration" (VNum (rateLimit_duration rl))])])
            | None => VUndef
            end);
    Spread (match debounce j with
            | Some db =>
                js_and (VBool (debounce_enabled db))
                  (object_literal [
                     Member "debounce" (object_literal [
                       Member "duration" (VNum (ttl db));
                       Member "key" (VStr (debounce_key db))])])
            | None => VUndef
            end);
    Spread (match delay j with
            | Some dl =>
                js_and (VBool (delay_enabled dl))
                  (object_literal [
                     Member "delay" (object_literal [
                       Member "duration" (VNum (delay_duration dl));
                       Member "key" (VStr (delay_key dl))])])
            | None => VUndef
            end);
    Spread (match repeat_ j with
            | Some rp =>
                js_and (VBool (repeat_enabled rp))
                  (object_literal [
                     Member "repeat" (object_literal [
                       Member "every" (VNum (every rp));
                       Member "limit" (VNum (limit rp));
                       Member "key" (nullish_string_to_value (repeat_key rp))])])
            | None => VUndef
            end);
    Spread (match priority j with
            | Some p =>
                js_and (VBool (Config.enabled p))
                  (object_literal [
                     Member "priority" (object_literal [
                       Member "default" (VNum (Config.defaultValue p))])])
            | None => VUndef
            end);
    Spread (match retries j with
            | Some r =>
                js_and (VBool (retries_enabled r))
                  (object_literal [
                     Member "attempts" (VNum (max r));
                     Member "backoff" (VStr (backoff_name (backoff r)));
                     Member "delay" (VNum (retries_delay r))])
            | None => VUndef
            end)].


(** *** Adding jobs *)

Definition z_optional {A} (p : schema A) : schema (option A) :=
  λ v, match v with VUndef => Some None | _ => Some <$> p v end.

(** [AddJobOptionsSchema.parse], as the value of [uniqueJobId] *)
Definition AddJobOptionsSchema : schema (option string) :=
  λ v, _ ← fields_of v; z_optional z_string (get_prop v "uniqueJobId").

(** [#formatJobOptions] *)
Definition formatJobOptions (options : value) : option value :=
  parsed ← AddJobOptionsSchema options;
  let uniqueJobId := from_option VStr VUndef parsed in
  Some (object_literal [
          (*> job id for deduplication *)
          Spread (js_and uniqueJobId (object_literal [Member "jobId" uniqueJobId]))]).

Inductive QueueCall :=
| queue_add (name : string) (data : value) (opts : value)
| queue_addBulk (jobs : list value)
| queue_setGlobalConcurrency (concurrency : Z)
| queue_resume
| queue_pause.

Inductive WorkerCall := worker_run | worker_resume | worker_pause.

(** A BullMQ queue and a BullMQ worker: what they were constructed with
    and the calls they have received, oldest first. The processor of the
    worker is [processJob] of the dispatcher that owns it. *)
Record BullQueue := {
  queue_name : string;
  queue_opts : value;
  queue_calls : list QueueCall
}.
Record BullWorker := {
  worker_name : string;
  worker_opts : value;
  worker_calls : list WorkerCall
}.

(** [OpenQueueClient], as far as the dispatcher reads it. *)
Record OpenQueueClient := { connection : value }.

(** The fields of [ActionDispatcher] that [init] assigns; [None] is the
    [null] they are constructed with. *)
Record Handles := {
  client : option OpenQueueClient;
  bullQueue : option BullQueue;
  bullWorker : option BullWorker
}.

Definition not_initialised : Handles :=
  {| client := None; bullQueue := None; bullWorker := None |}.

Section Queue.
Context {W : Type} `{!World W}.

Record ActionDispatcherOptions := {
  slug : string;
  (** [type] is ["action"] *)
  schema : schema value;
  handler : Dispatcher.ActionHandler W
}.

Record ActionDispatcher := {
  options : ActionDispatcherOptions;
  config : ActionDispatcherConfig
}.

(** The dispatcher as [processJob] and [ActiveJob] read it. *)
Definition processor (d : ActionDispatcher) : Dispatcher.ActionDispatcher W :=
  {| Dispatcher.handler := handler (options d);
     Dispatcher.schema_ := schema (options d);
     Dispatcher.dispatcher_config := priority_slice (config d) |}.

Definition Q (A : Type) : Type := Eff Handles A.

(** A [ZodError] thrown by a [parse]. *)
Definition lift_zod {A} (o : option A) : Q A :=
  λ s, match o with Some a => (Ok a, s) | None => (Throw ZodError, s) end.

(** Reading a member of a handle that is still [null]. *)
Definition null_member (member : string) : value :=
  VError TypeErrorC ("Cannot read properties of null (reading '" +:+ member +:+ "')").

(** [this.bullQueue!.member(...)] *)
Definition on_queue (member : string) (c : QueueCall) : Q unit :=
  λ s, match bullQueue s with
       | Some q =>
           (Ok (), {| client := client s;
                      bullQueue := Some {| queue_name := queue_name q;
                                           queue_opts := queue_opts q;
                                           queue_calls := queue_calls q ++ [c] |};
                      bullWorker := bullWorker s |})
       | None => (Throw (null_member member), s)
       end.

(** [this.bullWorker!.member()] *)
Definition on_worker (member : string) (c : WorkerCall) : Q unit :=
  λ s, match bullWorker s with
       | Some w =>
           (Ok (), {| client := client s; bullQueue := bullQueue s;
                      bullWorker := Some {| worker_name := worker_name w;
                                            worker_opts := worker_opts w;
                                            worker_calls := worker_calls w ++ [c] |} |})
       | None => (Throw (null_member member), s)
       end.

(** [this.bullQueue!.member], read before the arguments of the call are
    evaluated. *)
Definition queue_member (member : string) : Q unit :=
  λ s, match bullQueue s with
       | Some _ => (Ok (), s)
       | None => (Throw (null_member member), s)
       end.

(** [#formatNewJobData], as the object that is enqueued *)
Definition formatNewJobData (data : value) : option value :=
  Job.ActiveJob_to_value <$> Dispatcher.formatNewJobData data.

(** [addJob]; the parameter [options] defaults to [{}]. The job returned is
    the one the backend creates for the call. *)
Definition addJob (d : ActionDispatcher) (_input options_ : value) : Q Job.BullJob :=
  let options_ := match options_ with VUndef => VObj [] | _ => options_ end in
  let! parsed := lift_zod (schema (options d) _input) in
  let! jobData := lift_zod (formatNewJobData parsed) in
  queue_member "add" ;;
  let! opts := lift_zod (formatJobOptions options_) in
  on_queue "add" (queue_add "default" jobData opts) ;;
  ret {| Job.bj_data := jobData; Job.bj_calls := [] |}.

(** [v.member]; reading a member of [undefined] or [null] throws. *)
Definition read_member (v : value) (member : string) : Q value :=
  match v with
  | VUndef =>
      throw (VError TypeErrorC
               ("Cannot read properties of undefined (reading '" +:+ member +:+ "')"))
  | VNull => throw (null_member member)
  | _ => ret (get_prop v member)
  end.

(** [_inputs.map(f)]: [f] is applied to the elements in order, and the
    first one that throws ends the loop. *)
Fixpoint array_map {A B} (f : A → Q B) (l : list A) : Q (list B) :=
  match l with
  | [] => ret []
  | a :: l' =>
      let! b := f a in
      let! bs := array_map f l' in
      ret (b :: bs)
  end.

(** One element of the array that [addBulkJobs] builds. *)
Definition formatBulkJob (d : ActionDispatcher) (inp : value) : Q value :=
  let! data := read_member inp "data" in
  let! parsed := lift_zod (schema (options d) data) in
  let! jobData := lift_zod (formatNewJobData parsed) in
  let! options_ := read_member inp "options" in
  let! opts := lift_zod (formatJobOptions options_) in
  ret (object_literal [Member "name" (VStr "default");
                       Member "data" jobData;
                       Member "options" opts]).

Definition addBulkJobs (d : ActionDispatcher) (_inputs : list value)
    : Q (list Job.BullJob) :=
  let! formattedJobs := array_map (formatBulkJob d) _inputs in
  on_queue "addBulk" (queue_addBulk formattedJobs) ;;
  ret ((λ j, {| Job.bj_data := get_prop j "data"; Job.bj_calls := [] |})
       <$> formattedJobs).

(** *** Life cycle *)

Definition init (d : ActionDispatcher) (c : OpenQueueClient) : Q unit :=
  modify (λ s, {| client := Some c; bullQueue := bullQueue s;
                  bullWorker := bullWorker s |}) ;;
  modify (λ s, {| client := client s;
                  bullQueue :=
                    Some {| queue_name := slug (options d);
                            queue_opts :=
                              object_literal [Spread (queueOptions (config d));
                                              Member "connection" (connection c)];
                            queue_calls := [] |};
                  bullWorker := bullWorker s |}) ;;
  modify (λ s, {| client := client s; bullQueue := bullQueue s;
                  bullWorker :=
                    Some {| worker_name := slug (options d);
                            worker_opts :=
                              object_literal [Spread (workerOptions (config d));
                                              Member "connection" (connection c)];
                            worker_calls := [] |} |}) ;;
  match concurrency (jobs (config d)) ≫= global with
  | Some g =>
      if truthy (VNum g) then on_queue "setGlobalConcurrency" (queue_setGlobalConcurrency g)
      else ret ()
  | None => ret ()
  end.

Definition startQueue : Q unit := on_queue "resume" queue_resume.
Definition pauseQueue : Q unit := on_queue "pause" queue_pause.

Definition start : Q unit :=
  (* We can't await the .run() as it freezes. *)
  on_worker "run" worker_run ;;
  on_worker "resume" worker_resume.

Definition pause : Q unit := on_worker "pause" worker_pause.

End Queue.

Arguments ActionDispatcherOptions W : clear implicits.
Arguments ActionDispatcher W : clear implicits.

End Queueing.

(** ** Client.ts *)

Module Client.
Import FullConfig.

(** [ActionOptions] *)
Record ActionOptions := {
  slug : string;
  schema : schema value
}.

(** [OpenQueue.action] *)
Definition action {W} (options : ActionOptions)
    (config : option ActionDispatcherConfigInput)
    (handler : Dispatcher.ActionHandler W) : Queueing.ActionDispatcher W :=
  let parsedConfig := ActionDispatcherConfigSchema config in
  {| Queueing.options := {| Queueing.slug := slug options;
                            Queueing.schema := schema options;
                            Queueing.handler := handler |};
     Queueing.config := parsedConfig |}.

End Client.

(** * Specification vocabulary *)

Import Job JobRunner Dispatcher.

Arguments parse : simpl never.
Arguments ActiveJob_to_value : simpl never.

(** The payload that wraps [raw] on first touch; it is also what
    [ActionDispatcher.addJob] enqueues for the input [raw]. *)
Definition wrapped (raw : value) : ActiveJobData :=
  {| source := raw; __prepared := true; __state := ∅;
     __attempts := []; __step_attempts := [] |}.

Definition completed_payload : value :=
  VObj [("source", VNull); ("__prepared", VBool true);
        ("__state", VObj [("s1", VObj [("slug", VStr "s1");
                                        ("status", VStr "completed")])])].


Section Vocabulary.
Context {W : Type} `{!World W}.
Implicit Types (m : Machine W) (d : ActiveJobData).

(** The payload held by the backend job passes validation, as [d]. *)
Definition valid m d : Prop := parse (bj_data (bullJob m)) = Some d.

(** The machine after one more entry of the context logger. *)
Definition logged (e : LogEntry) m : Machine W :=
  {| bullJob := bullJob m; world := world m;
     ctx := {| logs := logs (ctx m) ++ [e]; jobAttempt := jobAttempt (ctx m);
               stepAttempts := stepAttempts (ctx m); steps := steps (ctx m) |} |}.

Definition already_completed (sid : string) : LogEntry :=
  {| level := l_info; message := "Step " +:+ sid +:+ " is already completed";
     log_data := VUndef |}.

(** The state that [execute] saves for a step it meets for the first time. *)
Definition pending_state (sid : string) : StepStateData :=
  {| slug := sid; status := pending; attempts := 0; data := VNull;
     error := VNull; result := VUndef |}.

Definition with_step (sid : string) (st : StepStateData) d : ActiveJobData :=
  set___state (<[sid := st]> (__state d)) d.

(** The state a step is executed from, and the backend call that saving a
    new step costs. *)
Definition entry_state (sid : string) d : StepStateData :=
  default (pending_state sid) (__state d !! sid).

Definition entry_calls (sid : string) d : list BackendCall :=
  match __state d !! sid with
  | None => [bull_updateData (ActiveJob_to_value (with_step sid (pending_state sid) d))]
  | Some _ => []
  end.

(** The state a plain step is left in, by how its handler ended. *)
Definition outcome_state (out : Res value) (st : StepStateData) : StepStateData :=
  match out with
  | Ok v => set_result v (set_status completed st)
  | Throw e => set_result VNull (set_error e (set_status failed st))
  end.

Definition not_completed (sid : string) d : Prop :=
  ∀ st, __state d !! sid = Some st → status st ≠ completed.

Definition runner_of (disp : ActionDispatcher W) (token : option string) : JobRunner :=
  {| purpose := p_execute;
     job := {| bullToken := token; config := dispatcher_config disp;
               dispatcher_schema := schema_ disp |} |}.

(** The machine once [processJob] has built the [ActiveJob] and the runner. *)
Definition started (payload : value) m : Machine W :=
  {| bullJob := {| bj_data := payload; bj_calls := bj_calls (bullJob m) |};
     world := world m; ctx := new_RunnerContext (clock (world m)) |}.

(** The payload after the finalization of [processJob]. *)
Definition finalized (c : RunnerContext W) (now : Z) d : ActiveJobData :=
  {| source := source d; __prepared := __prepared d; __state := __state d;
     __attempts := __attempts d ++ [(ContextAttempt_format now (jobAttempt c)).2];
     __step_attempts := __step_attempts d
                        ++ (snd <$> (ContextAttempt_format now <$> stepAttempts c)) |}.

(** A backend call that, if it updates the payload, writes a payload of the
    engine's own shape with the attempt ledger [la], [lsa]. *)
(** The workflow of the replay scenario: three plain steps in a row. *)
Definition abc (hA hB hC : Handler W) : Workflow W :=
  Step "A" hA (λ _, Step "B" hB (λ _, Step "C" hC (λ c, Return c))).

(** A dispatcher for a workflow that ignores its input, with the default
    configuration and a schema that accepts any input. *)
Definition dispatcher_of (wf : Workflow W) : ActionDispatcher W :=
  {| handler := λ _, wf; schema_ := z_any;
     dispatcher_config := Config.ActionDispatcherConfigSchema {| Config.in_jobs := None |} |}.

Definition carries (la lsa : list AttemptData) (c : BackendCall) : Prop :=
  ∀ p, c = bull_updateData p →
       ∃ d, p = ActiveJob_to_value d ∧ __attempts d = la ∧ __step_attempts d = lsa.

(** The attempts count of every step of [d'] is the one it has in [d], or 0
    for a step that [d] does not have; no step of [d] is lost. *)
Definition counters_kept d d' : Prop :=
  (∀ sid, is_Some (__state d !! sid) → is_Some (__state d' !! sid)) ∧
  (∀ sid st', __state d' !! sid = Some st' →
              attempts st' = from_option attempts 0 (__state d !! sid)).

(** From [m] to [m'] the payload stays valid, its source, its prepared mark,
    its attempt ledger and the attempts counts of its steps stay as they
    are, and the ledger is the same in every update the backend has received
    in between. *)
Definition ledger_kept m m' : Prop :=
  ∀ d, valid m d →
       ∃ d' new,
         valid m' d' ∧
         __attempts d' = __attempts d ∧ __step_attempts d' = __step_attempts d ∧
         source d' = source d ∧ __prepared d' = __prepared d ∧
         counters_kept d d' ∧
         bj_calls (bullJob m') = bj_calls (bullJob m) ++ new ∧
         Forall (carries (__attempts d) (__step_attempts d)) new.

(** What the payload of the job says about a step, and its attempt ledger. *)
Definition saved_step m (sid : string) : option StepStateData :=
  d ← parse (bj_data (bullJob m)); __state d !! sid.
Definition saved_ledger m : option (list AttemptData * list AttemptData) :=
  d ← parse (bj_data (bullJob m)); Some (__attempts d, __step_attempts d).

Definition saved_ledger_names m : option (list string * list string) :=
  d ← parse (bj_data (bullJob m));
  Some (a_name <$> __attempts d, a_name <$> __step_attempts d).
(** The outcomes of the step attempts that the context holds. *)
Definition attempt_statuses m : list AttemptStatus :=
  a_status <$> stepAttempts (ctx m).

(** The machine of the next invocation: the backend hands the job over
    again, with the payload last written. *)
Definition redeliver m : Machine W :=
  boot {| bj_data := bj_data (bullJob m); bj_calls := [] |} (world m).

End Vocabulary.

(** A world that is its own clock; a handler takes one tick. *)
Global Instance Z_world : World Z := λ t, t.

Definition returns (v : value) : Handler Z := λ t, (Ok v, t + 1).
Definition throws (e : value) : Handler Z := λ t, (Throw e, t + 1).
(** Fails until the clock reaches [t0]. *)
Definition fails_before (t0 : Z) (v : value) : Handler Z :=
  λ t, if t <? t0 then (Throw (new_Error "boom"), t + 1) else (Ok v, t + 1).

(** A runner for execution with the default configuration, a job as
    [addJob] enqueues it, and an executor machine with an empty job state. *)
Definition demo_job : ActiveJob :=
  {| bullToken := Some "token";
     config := Config.ActionDispatcherConfigSchema {| Config.in_jobs := None |};
     dispatcher_schema := z_any |}.
Definition demo_runner : JobRunner := {| purpose := p_execute; job := demo_job |}.
Definition enqueued (raw : value) : BullJob :=
  {| bj_data := ActiveJob_to_value (wrapped raw); bj_calls := [] |}.
Definition fresh_job (raw : value) : Machine Z := boot (enqueued raw) 0.
Definition fresh_executor : Executor.Machine Z :=
  {| Executor.state_data :=
       {| Executor.source := VNull; Executor.prepared := true;
          Executor.steps := ∅; Executor.jobAttempts := [];
          Executor.stepAttempts := []; Executor.__logs := [] |};
     Executor.ctx___logs := []; Executor.backend := []; Executor.world := 0 |}.

(** The job state of the executor with the buffered [logs] pushed. *)
Definition pushed (logs : list LogEntry) (d : Executor.JobState) : Executor.JobState :=
  {| Executor.source := Executor.source d; Executor.prepared := Executor.prepared d;
     Executor.steps := Executor.steps d; Executor.jobAttempts := Executor.jobAttempts d;
     Executor.stepAttempts := Executor.stepAttempts d;
     Executor.__logs := Executor.__logs d ++ logs |}.

(** Symbolic evaluation of the effectful code on a machine. *)

Ltac eff_unfold :=
  cbv [step sleep executeStep prepareStep execute canRun runStep runSleep
       getState setState bind ret throw attempt_ finally_ gets modify
       with_bullJob with_ctx Date_now call_handler lift_parse
       log log_debug log_info log_warn log_error
       _stepAttempt on_attempt _registerStep getParsedData updateData].

Ltac eval_decisions :=
  repeat match goal with
         | |- context [bool_decide ?P] =>
             first [ rewrite (bool_decide_eq_true_2 P) by done
                   | rewrite (bool_decide_eq_false_2 P) by done
                   | let b := eval vm_compute in (bool_decide P) in
                     lazymatch b with
                     | true => change (bool_decide P) with true
                     | false => change (bool_decide P) with false
                     end ]
         | |- context [@decide ?P ?D] =>
             first [ rewrite (decide_True (P := P)) by done
                   | rewrite (decide_False (P := P)) by done ]
         end.

Ltac exec_unfold :=
  cbv [Executor.executeSleep Executor.executeRun Executor.stepState_data
       Executor.stepState_write Executor.stepState_start
       Executor.stepState_complete Executor.stepState_error
       Executor.stepState_set_status Executor.job_delay
       Executor.state_updateData Executor.with_state_data
       Executor.backend_call Executor.Date_now Executor.ctx_log
       Executor.call_handler Executor.wrapUp Executor.state_getSourceData
       bind ret throw attempt_ finally_ gets modify].

(** ** Vocabulary of the further properties *)

(** The attempt that the context holds for a plain step, started at [start],
    once its handler has ended with [out] at [finish]. *)
Definition step_attempt_of (sid : string) (start : Z) (out : Res value) (finish : Z)
    : AttemptData :=
  let a := new_ContextAttempt Job.step ("step." +:+ sid) start in
  match out with
  | Ok _ => ContextAttempt_complete finish a
  | Throw e => ContextAttempt_fail e a
  end.

(** Every step that [d] shows as completed is in [d'] as it is in [d]. *)
Definition frozen (d d' : ActiveJobData) : Prop :=
  ∀ sid st, __state d !! sid = Some st → status st = completed →
            __state d' !! sid = Some st.

(** From [m] to [m'] the job attempt of the context is as it was, the
    payload stays valid, every completed step is saved as it was, and the
    source and the attempt ledger of the payload are unchanged. *)
Definition call_kept {W} (m m' : Machine W) : Prop :=
  jobAttempt (ctx m') = jobAttempt (ctx m) ∧
  ∀ d, valid m d →
       ∃ d', valid m' d' ∧ frozen d d' ∧ source d' = source d ∧
             __attempts d' = __attempts d ∧ __step_attempts d' = __step_attempts d.

(** The input that [processJob] hands to the workflow function: the
    [ActiveJob] is constructed, then [getSourceData] is called. *)
Definition workflow_input {W} (disp : ActionDispatcher W) (bj : BullJob) : option value :=
  bj' ← new_ActiveJob bj;
  getSourceData {| bullToken := None; config := dispatcher_config disp;
                   dispatcher_schema := schema_ disp |} bj'.


(** The workflow finds every call it makes answered by the payload [d]: each
    step and sleep it reaches is saved as completed, where the workflow goes
    on from a step with the value that [step] returns for a completed step. *)
Fixpoint replays {W} (d : ActiveJobData) (wf : Workflow W) : Prop :=
  match wf with
  | Return _ | Raise _ => True
  | Step sid _ k =>
      ∃ st, __state d !! sid = Some st ∧ status st = completed ∧
            replays d (k (result st ?? VNull ?? VUndef))
  | Sleep sid _ k =>
      (∃ st, __state d !! sid = Some st ∧ status st = completed) ∧ replays d k
  | Log _ _ _ k => replays d k
  end.

(** How such a workflow ends. *)
Fixpoint replayed {W} (d : ActiveJobData) (wf : Workflow W) : Res value :=
  match wf with
  | Return v => Ok v
  | Raise e => Throw e
  | Step sid _ k =>
      replayed d (k (from_option result VUndef (__state d !! sid) ?? VNull ?? VUndef))
  | Sleep _ _ k => replayed d k
  | Log _ _ _ k => replayed d k
  end.




(** The queue [q] after one more call. *)
Definition queue_called (c : Queueing.QueueCall) (q : Queueing.BullQueue)
    : Queueing.BullQueue :=
  {| Queueing.queue_name := Queueing.queue_name q;
     Queueing.queue_opts := Queueing.queue_opts q;
     Queueing.queue_calls := Queueing.queue_calls q ++ [c] |}.

(** What the configuration written by the caller says about retries. *)
Definition configured_retries (i : option FullConfig.ActionDispatcherConfigInput)
    : option FullConfig.RetriesInput :=
  config ← i; jobs ← FullConfig.in_jobs config; FullConfig.in_retries jobs.

(** The options that the queue and the worker are constructed with say
    nothing of retries. *)
Definition retries_off (config : FullConfig.ActionDispatcherConfig) : Prop :=
  let dj := get_prop (Queueing.queueOptions config) "defaultJobOptions" in
  let wo := Queueing.workerOptions config in
  get_prop dj "attempts" = VNum 0 ∧ get_prop dj "backoff" = VUndef ∧
  get_prop wo "attempts" = VUndef ∧ get_prop wo "backoff" = VUndef.

(** A job whose step [A] is saved as completed with the result ["a"], a
    runner for analysis, and a dispatcher built by [OpenQueue.action] with
    the empty configuration, a schema that accepts any input and a workflow
    that returns its input, with its handles once [init] has run. *)
Definition done_A : StepStateData :=
  {| slug := "A"; status := completed; attempts := 0; data := VNull;
     error := VNull; result := VStr "a" |}.
Definition job_with_A : ActiveJobData := with_step "A" done_A (wrapped VNull).
Definition replayed_job : Machine Z :=
  boot {| bj_data := ActiveJob_to_value job_with_A; bj_calls := [] |} 0.
Definition analyzer : JobRunner := {| purpose := p_analyze; job := demo_job |}.
Definition demo_action : Queueing.ActionDispatcher Z :=
  Client.action {| Client.slug := "video"; Client.schema := z_any |}
    (Some FullConfig.empty_config) (λ data, Return data).
Definition demo_client : Queueing.OpenQueueClient :=
  {| Queueing.connection := VStr "redis" |}.
Definition demo_handles : Queueing.Handles :=
  (Queueing.init demo_action demo_client Queueing.not_initialised).2.
Definition demo_input : value := VObj [("videoUrl", VStr "v")].

(** * Properties *)

(** ** The payload schema *)

Example nullish_coalesce_cases :
  VUndef ?? VNull = VNull ∧ VNull ?? VUndef = VUndef ∧
  VNum 0 ?? VNull = VNum 0 ∧ VStr "" ?? VNull = VStr "".
Proof. by repeat split. Qed.

Example parse_fills_defaults :
  parse (VObj [("videoUrl", VStr "v")])
  = Some {| source := VUndef; __prepared := false; __state := ∅;
            __attempts := []; __step_attempts := [] |}.
Proof. reflexivity. Qed.

Example parse_rejects :
  parse VUndef = None ∧ parse VNull = None ∧ parse (VStr "v") = None ∧
  parse (VArr []) = None ∧
  parse (VObj [("__prepared", VNull)]) = None ∧
  parse (VObj [("__state", VObj [("s", VObj [("status", VStr "pending")])])]) = None.
Proof. by repeat split. Qed.

Example delayed_priority_defaults :
  let cfg i := Config.ActionDispatcherConfigSchema i in
  let job_of c := {| bullToken := None; config := c; dispatcher_schema := z_any |} in
  let prio e d dd := {| Config.in_enabled := e; Config.in_defaultValue := d;
                        Config.in_delayDefaultValue := dd |} in
  getDelayedPriority (job_of (cfg {| Config.in_jobs := None |})) = 1 ∧
  getDelayedPriority
    (job_of (cfg {| Config.in_jobs := Some {| Config.in_priority := None |} |})) = 1 ∧
  getDelayedPriority
    (job_of (cfg {| Config.in_jobs :=
                      Some {| Config.in_priority := Some (prio true None None) |} |})) = 1 ∧
  getDelayedPriority
    (job_of (cfg {| Config.in_jobs :=
                      Some {| Config.in_priority := Some (prio true (Some 5) (Some 3)) |} |})) = 3.
Proof. by repeat split. Qed.

Lemma StepStateSchema_to_value s : StepStateSchema (StepState_to_value s) = Some s.
Proof. destruct s as [? [] ? ? ? ?]; reflexivity. Qed.

Lemma AttemptSchema_to_value a : AttemptSchema (Attempt_to_value a) = Some a.
Proof. destruct a as [[] [] ? ? [| |?] [| |?] ?]; reflexivity. Qed.

Lemma ActiveJob_to_value_props d :
  let v := ActiveJob_to_value d in
  fields_of v = Some (match v with VObj fs => fs | _ => [] end) ∧
  get_prop v "source" = source d ∧
  get_prop v "__prepared" = VBool (__prepared d) ∧
  get_prop v "__state" =
    VObj ((λ kv, (kv.1, StepState_to_value kv.2)) <$> map_to_list (__state d)) ∧
  get_prop v "__attempts" = VArr (Attempt_to_value <$> __attempts d) ∧
  get_prop v "__step_attempts" = VArr (Attempt_to_value <$> __step_attempts d).
Proof. repeat split; reflexivity. Qed.

(** Validation accepts what it produced, unchanged. *)
Lemma parse_to_value d : parse (ActiveJob_to_value d) = Some d.
Proof.
  destruct (ActiveJob_to_value_props d) as (Hf & Hs & Hp & Hst & Ha & Hsa).
  unfold parse, ActiveJobSchema.
  rewrite Hf, Hs, Hp, Hst, Ha, Hsa. cbn.
  unfold z_record. cbn.
  rewrite (mapM_fmap_Some _
             (λ kv : string * StepStateData, (kv.1, StepState_to_value kv.2))).
  2:{ intros [k s]. cbn [fst snd]. by rewrite StepStateSchema_to_value. }
  cbn. rewrite list_to_map_to_list.
  unfold z_array.
  rewrite !mapM_fmap_Some by apply AttemptSchema_to_value.
  cbn. by destruct d.
Qed.

Lemma parse_wrap raw :
  parse (VObj [("source", raw); ("__prepared", VBool true)]) = Some (wrapped raw).
Proof. reflexivity. Qed.

Lemma prepare_unprepared raw d0 :
  parse raw = Some d0 → __prepared d0 = false →
  prepare raw = Some (ActiveJob_to_value (wrapped raw), wrapped raw).
Proof.
  intros Hp Hf. unfold prepare. rewrite Hp. cbn. rewrite Hf.
  by rewrite parse_wrap.
Qed.

Lemma prepare_prepared payload d0 :
  parse payload = Some d0 → __prepared d0 = true →
  prepare payload = Some (payload, d0).
Proof. intros Hp Ht. unfold prepare. rewrite Hp. cbn. by rewrite Ht. Qed.

(** What [addJob] enqueues is prepared: [prepare] leaves it alone. *)
Lemma prepare_after_addJob data :
  formatNewJobData data = Some (wrapped data) ∧
  prepare (ActiveJob_to_value (wrapped data))
  = Some (ActiveJob_to_value (wrapped data), wrapped data).
Proof.
  split; [reflexivity|].
  apply prepare_prepared; [apply parse_to_value | done].
Qed.

(** A workflow input that uses none of the engine's keys is unprepared. *)
Lemma raw_object_unprepared fs :
  assoc "__prepared" fs = VUndef → assoc "__state" fs = VUndef →
  assoc "__attempts" fs = VUndef → assoc "__step_attempts" fs = VUndef →
  prepare (VObj fs) = Some (ActiveJob_to_value (wrapped (VObj fs)), wrapped (VObj fs)).
Proof.
  intros H1 H2 H3 H4.
  apply (prepare_unprepared _ {| source := assoc "source" fs; __prepared := false;
                                 __state := ∅; __attempts := [];
                                 __step_attempts := [] |}); [|done].
  unfold parse, ActiveJobSchema. cbn. by rewrite H1, H2, H3, H4.
Qed.


(** C7. First-touch wrapping is idempotent. A raw payload, an object that
    uses none of the engine's keys, is accepted and wrapped. Whenever
    [prepare] accepts a payload, the result is marked prepared; a payload
    that was not prepared is wrapped as [{source: payload, __prepared: true}]
    with empty state and attempt lists, a prepared one is returned as it is;
    and preparing the job again leaves both the payload of the job and the
    returned data as they are: [source] is not wrapped a second time. *)
Theorem prepare_idempotent (payload payload' : value) (d : ActiveJobData) :
  prepare payload = Some (payload', d) →
  (∀ fs, assoc "__prepared" fs = VUndef → assoc "__state" fs = VUndef →
         assoc "__attempts" fs = VUndef → assoc "__step_attempts" fs = VUndef →
         prepare (VObj fs)
         = Some (ActiveJob_to_value (wrapped (VObj fs)), wrapped (VObj fs))) ∧
  __prepared d = true ∧
  (∀ d0, parse payload = Some d0 → __prepared d0 = false →
         d = wrapped payload ∧ payload' = ActiveJob_to_value d) ∧
  (∀ d0, parse payload = Some d0 → __prepared d0 = true →
         d = d0 ∧ payload' = payload) ∧
  prepare payload' = Some (payload', d) ∧
  (∀ payload'' d', prepare payload' = Some (payload'', d') → source d' = source d).
Proof.
  intros Hprep. split; [exact raw_object_unprepared|].
  assert (Hcases : ∃ d0, parse payload = Some d0 ∧
            (__prepared d0 = true ∧ d = d0 ∧ payload' = payload ∨
             __prepared d0 = false ∧ d = wrapped payload ∧
             payload' = ActiveJob_to_value d)).
  { unfold prepare in Hprep.
    destruct (parse payload) as [d0|] eqn:Hp; [|done]. cbn in Hprep.
    exists d0. split; [done|].
    destruct (__prepared d0) eqn:Hb.
    - left. by simplify_eq.
    - right. rewrite parse_wrap in Hprep. cbn in Hprep. by simplify_eq. }
  destruct Hcases as (d0 & Hp & [(Hb & -> & ->) | (Hb & -> & ->)]).
  - assert (Hagain : prepare payload = Some (payload, d0))
      by by apply prepare_prepared.
    split; [done|]. split; [|split; [|split]].
    + intros d1 Hp1 Hb1. congruence.
    + intros d1 Hp1 _. split; congruence.
    + done.
    + intros p'' d' H'. congruence.
  - assert (Hagain : prepare (ActiveJob_to_value (wrapped payload))
                     = Some (ActiveJob_to_value (wrapped payload), wrapped payload))
      by (apply prepare_prepared; [apply parse_to_value | done]).
    split; [done|]. split; [|split; [|split]].
    + intros d1 Hp1 Hb1. done.
    + intros d1 Hp1 Hb1. congruence.
    + done.
    + intros p'' d' H'. congruence.
Qed.

(** The input of the README, a raw object, goes through [prepare]. *)
Lemma prepare_idempotent_witness :
  let raw := VObj [("videoUrl", VStr "https://example.org/v")] in
  prepare raw = Some (ActiveJob_to_value (wrapped raw), wrapped raw) ∧
  prepare (ActiveJob_to_value (wrapped raw))
  = Some (ActiveJob_to_value (wrapped raw), wrapped raw).
Proof.
  intros raw.
  assert (H : prepare raw = Some (ActiveJob_to_value (wrapped raw), wrapped raw))
    by (vm_compute; reflexivity).
  split; [exact H|].
  exact (proj1 (proj2 (proj2 (proj2 (proj2 (prepare_idempotent _ _ _ H)))))).
Defined.

(** ** The status domain *)

Lemma StatusSchema_name v s :
  StatusSchema v = Some s → v = VStr (status_name s).
Proof.
  destruct v as [| | | |name| | | |]; try done.
  unfold StatusSchema, z_enum, enum_lookup.
  repeat case_decide; intros; simplify_eq; done.
Qed.

Lemma StepStateSchema_status v s :
  StepStateSchema v = Some s →
  get_prop v "status" = VUndef ∧ status s = pending
  ∨ get_prop v "status" = VStr (status_name (status s)).
Proof.
  unfold StepStateSchema. intros H.
  destruct (fields_of v); [|done]. cbn in H.
  destruct (z_string (get_prop v "slug")); [|done]. cbn in H.
  destruct (z_default StatusSchema pending (get_prop v "status")) as [st|] eqn:Hst;
    [|done].
  cbn in H.
  destruct (z_default z_number 0 (get_prop v "attempts")); [|done].
  cbn in H. simplify_eq. cbn.
  unfold z_default in Hst.
  destruct (get_prop v "status") eqn:Hg;
    first [ left; split; [done | congruence]
          | right; by apply StatusSchema_name ].
Qed.

Lemma in_state_parsed payload d fs id v :
  parse payload = Some d → get_prop payload "__state" = VObj fs → (id, v) ∈ fs →
  ∃ s, StepStateSchema v = Some s.
Proof.
  unfold parse, ActiveJobSchema. intros H Hg Hin. rewrite Hg in H.
  destruct (fields_of payload); [|done]. cbn in H.
  destruct (z_default z_boolean false (get_prop payload "__prepared")); [|done].
  cbn in H.
  destruct (mapM (λ kv : string * value,
                    StepStateSchema kv.2 ≫= λ a, Some (kv.1, a)) fs)
    as [kvs|] eqn:Hm; [|done].
  apply mapM_Some_1 in Hm.
  destruct (proj1 (list_elem_of_lookup fs (id, v)) Hin) as [i Hi].
  destruct (Forall2_lookup_l _ _ _ _ _ Hm Hi) as (y & _ & Hy).
  cbn in Hy. destruct (StepStateSchema v) as [s|]; [by exists s | done].
Qed.

(** C5, as amended. The job-payload validation of [Job.ts] knows four
    statuses: a step state inside an accepted payload carries no status (and
    is read as pending) or one of pending, active, completed, failed; the
    parsed status is one of these four; the status [delayed], which
    [StepExecutor.executeSleep] writes, never occurs in an accepted payload;
    and an accepted payload passes validation again, unchanged. *)
Theorem accepted_status_domain (payload : value) (d : ActiveJobData) :
  parse payload = Some d →
  (∀ id s, __state d !! id = Some s →
           status_name (status s) ∈ ["pending"; "active"; "completed"; "failed"]) ∧
  (∀ fs id v, get_prop payload "__state" = VObj fs → (id, v) ∈ fs →
              get_prop v "status" = VUndef ∨
              ∃ s : StatusData, get_prop v "status" = VStr (status_name s)) ∧
  (∀ fs id v, get_prop payload "__state" = VObj fs → (id, v) ∈ fs →
              get_prop v "status" ≠ VStr (Executor.status_name Executor.delayed)) ∧
  parse (ActiveJob_to_value d) = Some d.
Proof.
  intros Hp.
  assert (Hraw : ∀ fs id v, get_prop payload "__state" = VObj fs → (id, v) ∈ fs →
                 get_prop v "status" = VUndef ∨
                 ∃ s : StatusData, get_prop v "status" = VStr (status_name s)).
  { intros fs id v Hg Hin.
    destruct (in_state_parsed _ _ _ _ _ Hp Hg Hin) as [s Hs].
    destruct (StepStateSchema_status _ _ Hs) as [[Hu _]|Hn]; [by left|].
    right. by exists (status s). }
  split; [|split; [exact Hraw|split]].
  - intros id s _. destruct (status s); cbn; set_solver.
  - intros fs id v Hg Hin Hd.
    destruct (Hraw fs id v Hg Hin) as [Hu|[s Hs]]; [congruence|].
    rewrite Hs in Hd. by destruct s.
  - apply parse_to_value.
Qed.

Lemma accepted_status_domain_witness :
  ∃ d, parse completed_payload = Some d ∧
       parse (ActiveJob_to_value d) = Some d ∧
       ∀ fs id v, get_prop completed_payload "__state" = VObj fs → (id, v) ∈ fs →
                  get_prop v "status" ≠ VStr "delayed".
Proof.
  pose (d := {| source := VNull; __prepared := true;
                __state := {[ "s1" := {| slug := "s1"; status := completed;
                                         attempts := 0; data := VUndef;
                                         error := VUndef; result := VUndef |} ]};
                __attempts := []; __step_attempts := [] |}).
  assert (H : parse completed_payload = Some d) by (vm_compute; reflexivity).
  exists d. split; [exact H|].
  destruct (accepted_status_domain completed_payload d H) as (_ & _ & Hno & Hrt).
  split; [exact Hrt | exact Hno].
Defined.

(** C5, as stated, fails: a step state with status [delayed] does not
    pass the validation of the payload. *)
Lemma delayed_status_rejected :
  StepStateSchema (VObj [("slug", VStr "s1"); ("status", VStr "delayed")]) = None ∧
  parse (VObj [("source", VNull); ("__prepared", VBool true);
               ("__state", VObj [("s1", VObj [("slug", VStr "s1");
                                               ("status", VStr "delayed")])])])
  = None.
Proof. split; vm_compute; reflexivity. Qed.

(** ** Sequencing *)

Lemma bind_fst_throw {S A B} (c : Eff S A) (k : A → Eff S B) s e :
  (c s).1 = Throw e → bind c k s = (Throw e, (c s).2).
Proof. unfold bind. destruct (c s) as [[a|e'] s']; cbn; congruence. Qed.


(** ** One call of the runtime API, on a valid payload *)

Ltac eff_go tac :=
  repeat (progress (cbn; try tac; eval_decisions;
            rewrite ?parse_to_value, ?lookup_insert_eq)).

Ltac fold_with_step sid d :=
  fold (pending_state sid);
  repeat match goal with
         | |- context [set___state (<[sid := ?a]> (<[sid := ?b]> ?s)) (set___state _ d)] =>
             change (set___state (<[sid := a]> (<[sid := b]> s))
                       (set___state (<[sid := b]> s) d))
               with (with_step sid a (with_step sid b d))
         end.

Section RunnerFacts.
Context {W : Type} `{!World W}.
Implicit Types (m : Machine W) (d : ActiveJobData) (r : JobRunner) (h : Handler W).

Local Arguments String.append : simpl never.
Local Arguments pretty : simpl never.

Lemma completed_or_not sid d :
  (∃ st, __state d !! sid = Some st ∧ status st = completed) ∨ not_completed sid d.
Proof.
  destruct (__state d !! sid) as [st|] eqn:Hs.
  - destruct (decide (status st = completed)) as [Hc|Hc]; [left; eauto|].
    right. intros st' Hs'. unfold not_completed in *. congruence.
  - right. intros st' Hs'. congruence.
Qed.

Lemma with_step_twice sid st1 st2 d :
  with_step sid st2 (with_step sid st1 d) = with_step sid st2 d.
Proof. unfold with_step, set___state. cbn. by rewrite insert_insert_eq. Qed.

Lemma with_step_valid sid st d m :
  bj_data (bullJob m) = ActiveJob_to_value (with_step sid st d) →
  valid m (with_step sid st d).
Proof. unfold valid. intros ->. apply parse_to_value. Qed.

(** A completed step is answered from the payload: the handler is not
    called, the backend is not called, one log entry is buffered. *)
Lemma step_completed r sid h m d st :
  valid m d → __state d !! sid = Some st → status st = completed →
  step r sid h m
  = (Ok (result st ?? VNull ?? VUndef), logged (already_completed sid) m).
Proof.
  intros Hv Hs Hc. unfold valid in Hv.
  eff_unfold. eff_go ltac:(rewrite ?Hv, ?Hs, ?Hc, ?andb_false_r). done.
Qed.

(** A step that is not completed is executed. *)
Lemma step_runs r sid h m d :
  valid m d → purpose r = p_execute → not_completed sid d →
  let out := h (world m) in
  let d' := with_step sid (outcome_state out.1 (entry_state sid d)) d in
  let rm := step r sid h m in
  rm.1 = match out.1 with
         | Ok v => Ok v
         | Throw e => Throw (new_Error ("Step " +:+ sid +:+ " failed."))
         end ∧
  world rm.2 = out.2 ∧
  bullJob rm.2 =
    {| bj_data := ActiveJob_to_value d';
       bj_calls := bj_calls (bullJob m) ++ entry_calls sid d
                   ++ [bull_updateData (ActiveJob_to_value d')] |}.
Proof.
  intros Hv Hp Hnc. unfold valid in Hv.
  unfold entry_state, entry_calls.
  destruct (__state d !! sid) as [st|] eqn:Hs.
  - assert (Hst : status st ≠ completed) by by apply Hnc.
    eff_unfold. rewrite Hp.
    eff_go ltac:(rewrite ?Hv, ?Hs).
    destruct (h (world m)) as [[v|e] w'];
      eff_go ltac:(rewrite ?Hv, ?Hs); rewrite ?app_nil_l; done.
  - eff_unfold. rewrite Hp.
    eff_go ltac:(rewrite ?Hv, ?Hs).
    destruct (h (world m)) as [[v|e] w'];
      eff_go ltac:(rewrite ?Hv, ?Hs);
      fold_with_step sid d;
      rewrite ?with_step_twice; unfold call; cbn; rewrite <- ?app_assoc; done.
Qed.

(** A completed sleep is passed. *)
Lemma sleep_completed r sid duration m d st :
  valid m d → __state d !! sid = Some st → status st = completed →
  sleep r sid duration m = (Ok VUndef, logged (already_completed sid) m).
Proof.
  intros Hv Hs Hc. unfold valid in Hv.
  eff_unfold. eff_go ltac:(rewrite ?Hv, ?Hs, ?Hc, ?andb_false_r). done.
Qed.

(** A sleep that is not completed: the step is saved as completed, the
    priority is changed, and then the sleep function either parks the job
    or, for a duration of zero, fails. *)
Lemma sleep_first_pass r sid duration m d :
  valid m d → purpose r = p_execute → not_completed sid d →
  let d' := with_step sid (set_result VNull (set_status completed (entry_state sid d))) d in
  let rm := sleep r sid duration m in
  rm.1 = (if duration =? 0
          then Throw (new_Error "Missing duration or type for #runSleep()")
          else Throw new_DelayedError) ∧
  world rm.2 = world m ∧
  bullJob rm.2 =
    {| bj_data := ActiveJob_to_value d';
       bj_calls := bj_calls (bullJob m) ++ entry_calls sid d
                   ++ [bull_updateData (ActiveJob_to_value d');
                       bull_changePriority (getDelayedPriority (job r))]
                   ++ (if duration =? 0 then []
                       else [bull_moveToDelayed (clock (world m) + duration)
                               (bullToken (job r))]) |}.
Proof.
  intros Hv Hp Hnc. unfold valid in Hv.
  unfold entry_state, entry_calls.
  destruct (__state d !! sid) as [st|] eqn:Hs.
  - assert (Hst : status st ≠ completed) by by apply Hnc.
    eff_unfold. rewrite Hp.
    eff_go ltac:(rewrite ?Hv, ?Hs).
    destruct (duration =? 0);
      eff_go ltac:(rewrite ?Hv, ?Hs); unfold call; cbn; rewrite <- ?app_assoc; done.
  - eff_unfold. rewrite Hp.
    eff_go ltac:(rewrite ?Hv, ?Hs).
    destruct (duration =? 0);
      eff_go ltac:(rewrite ?Hv, ?Hs);
      fold_with_step sid d;
      rewrite ?with_step_twice; unfold call; cbn; rewrite <- ?app_assoc; done.
Qed.

End RunnerFacts.

(** ** One call of the step executor *)

Section ExecutorFacts.
Context {W : Type} `{!World W}.
Implicit Types (m : Executor.Machine W).

Lemma executeSleep_first_pass sid duration m :
  Executor.status (default (Executor.fresh sid)
                     (Executor.steps (Executor.state_data m) !! sid))
    ≠ Executor.delayed →
  let rm := Executor.executeSleep sid duration m in
  rm.1 = Throw new_DelayedError ∧
  Executor.steps (Executor.state_data rm.2) !! sid
    = Some (Executor.set_status Executor.delayed
              (default (Executor.set_status Executor.active (Executor.fresh sid))
                       (Executor.steps (Executor.state_data m) !! sid))) ∧
  (∀ other, other ≠ sid →
            Executor.steps (Executor.state_data rm.2) !! other
            = Executor.steps (Executor.state_data m) !! other) ∧
  Executor.backend rm.2
    = Executor.backend m
      ++ [Executor.delayUntil (clock (Executor.world m) + duration)] ∧
  Executor.world rm.2 = Executor.world m ∧
  Executor.ctx___logs rm.2 = Executor.ctx___logs m.
Proof.
  intros Hnd. exec_unfold. cbn.
  rewrite decide_False by done.
  destruct (Executor.steps (Executor.state_data m) !! sid) as [st|] eqn:Hs;
    cbn [Executor.state_data Executor.steps Executor.set_steps fst snd
         Executor.backend Executor.world Executor.ctx___logs].
  - rewrite Hs, lookup_insert_eq.
    repeat split; try done.
    intros other Hne. by rewrite lookup_insert_ne.
  - rewrite !lookup_insert_eq.
    repeat split; try done.
    intros other Hne. by rewrite !lookup_insert_ne.
Qed.

Lemma executeSleep_resume sid duration m st :
  Executor.steps (Executor.state_data m) !! sid = Some st →
  Executor.status st = Executor.delayed →
  let rm := Executor.executeSleep sid duration m in
  rm.1 = Ok {| Executor.success := true; Executor.ran := true;
               Executor.result_ := VBool true |} ∧
  Executor.steps (Executor.state_data rm.2) !! sid
    = Some {| Executor.slug := Executor.slug st;
              Executor.status := Executor.completed;
              Executor.attempts := Executor.attempts st;
              Executor.data := Executor.data st;
              Executor.result := VBool true; Executor.error := VNull |} ∧
  Executor.backend rm.2 = Executor.backend m ∧
  Executor.world rm.2 = Executor.world m.
Proof.
  intros Hs Hd. exec_unfold. cbn. rewrite Hs. cbn [default].
  rewrite decide_True by done.
  cbn [Executor.state_data Executor.steps Executor.set_steps fst snd
       Executor.backend Executor.world Executor.ctx___logs].
  rewrite Hs, lookup_insert_eq. done.
Qed.

End ExecutorFacts.

(** ** The claims about the runtime API of [JobRunner.ts] *)

Section RunnerClaims.
Context {W : Type} `{!World W}.
Implicit Types (m : Machine W) (d : ActiveJobData) (r : JobRunner) (h : Handler W).





End RunnerClaims.

(** *** The claims at a freshly enqueued job *)

Lemma wrapped_not_completed sid raw : not_completed sid (wrapped raw).
Proof. intros st H. cbn in H. by rewrite lookup_empty in H. Qed.






(** ** One invocation of [processJob] *)

Section DispatcherFacts.
Context {W : Type} `{!World W}.
Implicit Types (m : Machine W) (d : ActiveJobData) (r : JobRunner) (h : Handler W).

Local Arguments String.append : simpl never.
Local Arguments pretty : simpl never.

Lemma prepare_parse payload payload' d :
  prepare payload = Some (payload', d) → parse payload' = Some d.
Proof.
  unfold prepare. intros H.
  destruct (parse payload) as [d0|] eqn:Hp; [|done]. cbn in H.
  destruct (__prepared d0).
  - by simplify_eq.
  - rewrite parse_wrap in H. cbn in H. simplify_eq. apply parse_to_value.
Qed.

Lemma finalize_valid m d :
  valid m d →
  let d' := finalized (ctx m) (clock (world m)) d in
  let rm := finalize m in
  rm.1 = Ok () ∧
  world rm.2 = world m ∧
  bullJob rm.2 = call (bull_updateData (ActiveJob_to_value d')) (bullJob m).
Proof.
  intros Hv. unfold valid in Hv.
  unfold finalize, _formatAttempts, jobAttempt_format. eff_unfold.
  eff_go ltac:(rewrite ?Hv). done.
Qed.

Lemma processJob_eq (disp : ActionDispatcher W) token m payload' d0 input :
  prepare (bj_data (bullJob m)) = Some (payload', d0) →
  schema_ disp (source d0) = Some input →
  processJob disp token m =
    let rm := run (runner_of disp token) (handler disp input) (started payload' m) in
    match rm.1 with
    | Ok v => (Ok v, (finalize rm.2).2)
    | Throw e => (Throw e, rm.2)
    end.
Proof.
  intros Hprep Hsch.
  pose proof (prepare_parse _ _ _ Hprep) as Hv.
  unfold processJob, new_ActiveJob, getSourceData. eff_unfold.
  cbn. rewrite Hprep. cbn. rewrite Hv. cbn. rewrite Hsch. cbn.
  fold (runner_of disp token). fold (started payload' m).
  destruct (run _ _ _) as [[v|e] m']; cbn; [|done].
  by destruct (finalize m').
Qed.

Lemma counters_kept_refl d : counters_kept d d.
Proof. split; [done|]. intros sid st' Hs. by rewrite Hs. Qed.

Lemma counters_kept_trans d1 d2 d3 :
  counters_kept d1 d2 → counters_kept d2 d3 → counters_kept d1 d3.
Proof.
  intros [Hk12 Hc12] [Hk23 Hc23]. split; [by auto|].
  intros sid st3 Hs3. rewrite (Hc23 sid st3 Hs3).
  destruct (__state d2 !! sid) as [st2|] eqn:Hs2; cbn.
  - by apply Hc12.
  - destruct (__state d1 !! sid) as [st1|] eqn:Hs1; [|done].
    destruct (Hk12 sid) as [st2 Hst2]; [by rewrite Hs1|]. congruence.
Qed.

(** Saving a step in a state that has the attempts count of the state the
    step was entered in keeps the counters. *)
Lemma counters_kept_with_step sid st d :
  attempts st = attempts (entry_state sid d) →
  counters_kept d (with_step sid st d).
Proof.
  intros Hatt. split.
  - intros sid' Hsome. cbn. destruct (decide (sid = sid')) as [->|Hne].
    + rewrite lookup_insert_eq. by eexists.
    + by rewrite lookup_insert_ne.
  - intros sid' st' Hs. cbn in Hs. destruct (decide (sid = sid')) as [->|Hne].
    + rewrite lookup_insert_eq in Hs. simplify_eq. rewrite Hatt.
      unfold entry_state. by destruct (__state d !! sid').
    + rewrite lookup_insert_ne in Hs by done. by rewrite Hs.
Qed.

Lemma ledger_kept_same_job m m' : bullJob m' = bullJob m → ledger_kept m m'.
Proof.
  intros Hb d Hv. exists d, []. unfold valid in *. rewrite Hb, app_nil_r.
  repeat split; try done; by apply counters_kept_refl.
Qed.

Lemma ledger_kept_trans m1 m2 m3 :
  ledger_kept m1 m2 → ledger_kept m2 m3 → ledger_kept m1 m3.
Proof.
  intros H12 H23 d Hv.
  destruct (H12 d Hv) as (d2 & new2 & Hv2 & Ha2 & Hs2 & Hsrc2 & Hp2 & Hk2 & Hc2 & Hf2).
  destruct (H23 d2 Hv2) as (d3 & new3 & Hv3 & Ha3 & Hs3 & Hsrc3 & Hp3 & Hk3 & Hc3 & Hf3).
  exists d3, (new2 ++ new3).
  rewrite Ha2, Hs2 in Hf3.
  split; [done|]. split; [congruence|]. split; [congruence|].
  split; [congruence|]. split; [congruence|].
  split; [by eapply counters_kept_trans|]. split.
  - rewrite Hc3, Hc2. by rewrite app_assoc.
  - by apply Forall_app.
Qed.

Lemma carries_with_step sid st d :
  carries (__attempts d) (__step_attempts d)
    (bull_updateData (ActiveJob_to_value (with_step sid st d))).
Proof. intros p Hp. simplify_eq. by eexists. Qed.

Lemma entry_calls_carry sid d :
  Forall (carries (__attempts d) (__step_attempts d)) (entry_calls sid d).
Proof.
  unfold entry_calls. destruct (__state d !! sid).
  - apply Forall_nil_2.
  - apply Forall_cons_2; [apply carries_with_step | apply Forall_nil_2].
Qed.

Lemma step_keeps_ledger r sid h m :
  purpose r = p_execute → ledger_kept m (step r sid h m).2.
Proof.
  intros Hp d Hv.
  destruct (completed_or_not sid d) as [(st & Hs & Hc)|Hnc].
  - rewrite (step_completed r sid h m d st Hv Hs Hc).
    by apply (ledger_kept_same_job m).
  - destruct (step_runs r sid h m d Hv Hp Hnc) as (_ & _ & Hbj).
    eexists (with_step sid _ d), _. unfold valid. rewrite Hbj. cbn [bj_data bj_calls].
    split; [apply parse_to_value|].
    do 4 (split; [done|]). split; [|split; [done|]].
    + apply counters_kept_with_step. unfold outcome_state. by destruct (h (world m)).1.
    + apply Forall_app. split; [apply entry_calls_carry|].
      apply Forall_cons_2; [apply carries_with_step | apply Forall_nil_2].
Qed.

Lemma sleep_keeps_ledger r sid duration m :
  purpose r = p_execute → ledger_kept m (sleep r sid duration m).2.
Proof.
  intros Hp d Hv.
  destruct (completed_or_not sid d) as [(st & Hs & Hc)|Hnc].
  - rewrite (sleep_completed r sid duration m d st Hv Hs Hc).
    by apply (ledger_kept_same_job m).
  - destruct (sleep_first_pass r sid duration m d Hv Hp Hnc) as (_ & _ & Hbj).
    eexists (with_step sid _ d), _. unfold valid. rewrite Hbj. cbn [bj_data bj_calls].
    split; [apply parse_to_value|].
    do 4 (split; [done|]). split; [|split; [done|]].
    + by apply counters_kept_with_step.
    + apply Forall_app. split; [apply entry_calls_carry|].
      apply Forall_cons_2; [apply carries_with_step|].
      apply Forall_cons_2; [by intros p Hp'|].
      destruct (duration =? 0); [apply Forall_nil_2|].
      apply Forall_cons_2; [by intros p Hp' | apply Forall_nil_2].
Qed.

Lemma run_keeps_ledger r (wf : Workflow W) m :
  purpose r = p_execute → ledger_kept m (run r wf m).2.
Proof.
  intros Hp. revert m.
  induction wf as [v|e|sid h k IH|sid duration k IH|lvl msg dt k IH]; intros m; cbn [run].
  - by apply ledger_kept_same_job.
  - by apply ledger_kept_same_job.
  - unfold bind. pose proof (step_keeps_ledger r sid h m Hp) as Hs.
    destruct (step r sid h m) as [[v|e] m']; cbn in *; [|done].
    eapply ledger_kept_trans; [exact Hs | apply IH].
  - unfold bind. pose proof (sleep_keeps_ledger r sid duration m Hp) as Hs.
    destruct (sleep r sid duration m) as [[v|e] m']; cbn in *; [|done].
    eapply ledger_kept_trans; [exact Hs | apply IH].
  - unfold bind. cbn. eapply ledger_kept_trans; [|apply IH].
    by apply ledger_kept_same_job.
Qed.
Lemma step_runs_eq r sid h m d out w' :
  valid m d → purpose r = p_execute → not_completed sid d →
  h (world m) = (out, w') →
  let d' := with_step sid (outcome_state out (entry_state sid d)) d in
  ∃ m', step r sid h m
        = (match out with
           | Ok v => Ok v
           | Throw e => Throw (new_Error ("Step " +:+ sid +:+ " failed."))
           end, m') ∧
        world m' = w' ∧ valid m' d' ∧
        bj_data (bullJob m') = ActiveJob_to_value d'.
Proof.
  intros Hv Hp Hnc Hh d'.
  destruct (step_runs r sid h m d Hv Hp Hnc) as (Hres & Hw & Hbj).
  rewrite Hh in Hres, Hw, Hbj. cbn [fst snd] in Hres, Hw, Hbj. fold d' in Hbj.
  exists (step r sid h m).2. split; [|split; [exact Hw|split]].
  - rewrite <- Hres. by destruct (step r sid h m).
  - unfold valid. rewrite Hbj. apply parse_to_value.
  - by rewrite Hbj.
Qed.

Lemma processJob_calls (disp : ActionDispatcher W) token m payload' d0 :
  prepare (bj_data (bullJob m)) = Some (payload', d0) →
  let rm := processJob disp token m in
  ∃ d1 new,
    __attempts d1 = __attempts d0 ∧ __step_attempts d1 = __step_attempts d0 ∧
    counters_kept d0 d1 ∧
    Forall (carries (__attempts d0) (__step_attempts d0)) new ∧
    match rm.1 with
    | Throw _ =>
        valid rm.2 d1 ∧ bj_calls (bullJob rm.2) = bj_calls (bullJob m) ++ new
    | Ok _ =>
        ∃ (c : RunnerContext W) now,
          valid rm.2 (finalized c now d1) ∧
          bj_calls (bullJob rm.2)
          = bj_calls (bullJob m) ++ new
            ++ [bull_updateData (ActiveJob_to_value (finalized c now d1))]
    end.
Proof.
  intros Hprep rm.
  pose proof (prepare_parse _ _ _ Hprep) as Hv0.
  destruct (schema_ disp (source d0)) as [input|] eqn:Hsch.
  - pose proof (processJob_eq disp token m payload' d0 input Hprep Hsch) as Heq.
    cbn zeta in Heq.
    pose proof (run_keeps_ledger (runner_of disp token) (handler disp input)
                  (started payload' m) eq_refl d0 Hv0)
      as (d1 & new & Hv1 & Ha & Hs & _ & _ & Hk & Hc & Hf).
    exists d1, new. split; [exact Ha|]. split; [exact Hs|]. split; [exact Hk|].
    split; [exact Hf|].
    unfold rm. rewrite Heq.
    destruct (run _ _ _) as [[v|e] m'] eqn:Hrun; cbn [fst snd] in *.
    + destruct (finalize_valid m' d1 Hv1) as (_ & _ & Hbj).
      exists (ctx m'), (clock (world m')). unfold valid. rewrite Hbj. cbn.
      split; [apply parse_to_value|]. rewrite Hc. by rewrite <- app_assoc.
    + split; [exact Hv1 | exact Hc].
  - exists d0, []. split; [done|]. split; [done|].
    split; [apply counters_kept_refl|]. split; [apply Forall_nil_2|].
    assert (Heq : rm = (Throw ZodError, started payload' m)).
    { unfold rm, processJob, new_ActiveJob, getSourceData. eff_unfold.
      cbn. rewrite Hprep. cbn. rewrite Hv0. cbn. rewrite Hsch. done. }
    rewrite Heq. cbn. split; [exact Hv0 | by rewrite app_nil_r].
Qed.


Lemma run_step_eq r sid h (k : value → Workflow W) m res m' :
  step r sid h m = (res, m') →
  run r (Step sid h k) m
  = match res with Ok v => run r (k v) m' | Throw e => (Throw e, m') end.
Proof. intros H. cbn [run]. unfold bind. by rewrite H. Qed.

(** The replay of a failure, whatever the handlers: the steps A, B, C on a
    freshly enqueued job, where B throws in the first invocation and
    returns in the second. *)
Lemma replay_to_failure_point (hA hB hC : Handler W) token src
    (m0 m1 : Machine W) a eB b c w1 w2 w3 w4 :
  bj_data (bullJob m0) = ActiveJob_to_value (wrapped src) →
  hA (world m0) = (Ok a, w1) → hB w1 = (Throw eB, w2) →
  let disp := dispatcher_of (abc hA hB hC) in
  let first := processJob disp token m0 in
  bj_data (bullJob m1) = bj_data (bullJob first.2) →
  hB (world m1) = (Ok b, w3) → hC w3 = (Ok c, w4) →
  let second := processJob disp token m1 in
  first.1 = Throw (new_Error "Step B failed.") ∧
  second.1 = Ok c ∧
  ∃ dfin stA stB stC,
    valid second.2 dfin ∧
    __state dfin !! "A" = Some stA ∧ status stA = completed ∧ result stA = a ∧
    __state dfin !! "B" = Some stB ∧ status stB = completed ∧ result stB = b ∧
    __state dfin !! "C" = Some stC ∧ status stC = completed ∧ result stC = c ∧
    attempts stA = 0 ∧ attempts stB = 0 ∧ attempts stC = 0 ∧ error stB = eB.
Proof.
  intros Hm0 HA HB1 disp first Hm1 HB2 HC second.
  set (r := runner_of disp token).
  (* first invocation *)
  assert (Hprep0 : prepare (bj_data (bullJob m0))
                   = Some (ActiveJob_to_value (wrapped src), wrapped src)).
  { rewrite Hm0. apply prepare_prepared; [apply parse_to_value | done]. }
  pose proof (processJob_eq disp token m0 _ _ src Hprep0 eq_refl) as Hfirst.
  cbn zeta in Hfirst. fold first r in Hfirst.
  set (ms := started (ActiveJob_to_value (wrapped src)) m0) in *.
  assert (Hvs : valid ms (wrapped src)) by apply parse_to_value.
  destruct (step_runs_eq r "A" hA ms (wrapped src) (Ok a) w1 Hvs eq_refl
              (wrapped_not_completed "A" src) HA)
    as (mA & EA & HwA & HvA & _).
  cbn in HvA. set (dA := with_step "A" _ (wrapped src)) in *.
  assert (HncB : not_completed "B" dA).
  { intros st Hst. cbn in Hst. rewrite lookup_insert_ne in Hst by done.
    by rewrite lookup_empty in Hst. }
  rewrite <- HwA in HB1.
  destruct (step_runs_eq r "B" hB mA dA (Throw eB) w2 HvA eq_refl HncB HB1)
    as (mB & EB & HwB & HvB & HdB).
  set (dB := with_step "B" _ dA) in *.
  assert (Hrun1 : run r (handler disp src) ms = (Throw (new_Error "Step B failed."), mB)).
  { change (handler disp src) with (abc hA hB hC). unfold abc.
    rewrite (run_step_eq _ _ _ _ _ _ _ EA). by rewrite (run_step_eq _ _ _ _ _ _ _ EB). }
  rewrite Hrun1 in Hfirst. cbn [fst snd] in Hfirst.
  split; [by rewrite Hfirst|].
  (* second invocation *)
  rewrite Hfirst in Hm1. cbn [fst snd] in Hm1. rewrite HdB in Hm1.
  assert (Hprep1 : prepare (bj_data (bullJob m1)) = Some (bj_data (bullJob m1), dB)).
  { apply prepare_prepared; [rewrite Hm1; apply parse_to_value | done]. }
  pose proof (processJob_eq disp token m1 _ _ src Hprep1 eq_refl) as Hsecond.
  cbn zeta in Hsecond. fold second r in Hsecond.
  set (ms1 := started (bj_data (bullJob m1)) m1) in *.
  assert (Hvs1 : valid ms1 dB) by (unfold valid; cbn; rewrite Hm1; apply parse_to_value).
  set (stA := outcome_state (Ok a) (entry_state "A" (wrapped src))) in *.
  assert (HlA : __state dB !! "A" = Some stA).
  { cbn. rewrite lookup_insert_ne by done. apply lookup_insert_eq. }
  pose proof (step_completed r "A" hA ms1 dB stA Hvs1 HlA eq_refl) as EA2.
  set (mA2 := logged (already_completed "A") ms1) in *.
  assert (HvA2 : valid mA2 dB) by exact Hvs1.
  set (stBf := outcome_state (Throw eB) (entry_state "B" dA)) in *.
  assert (HlB : __state dB !! "B" = Some stBf) by apply lookup_insert_eq.
  assert (HncB2 : not_completed "B" dB).
  { intros st Hst. rewrite HlB in Hst. by simplify_eq. }
  destruct (step_runs_eq r "B" hB mA2 dB (Ok b) w3 HvA2 eq_refl HncB2 HB2)
    as (mB2 & EB2 & HwB2 & HvB2 & _).
  set (dB2 := with_step "B" _ dB) in *.
  assert (HncC : not_completed "C" dB2).
  { intros st Hst. cbn in Hst.
    rewrite !lookup_insert_ne in Hst by done. by rewrite lookup_empty in Hst. }
  rewrite <- HwB2 in HC.
  destruct (step_runs_eq r "C" hC mB2 dB2 (Ok c) w4 HvB2 eq_refl HncC HC)
    as (mC & EC & HwC & HvC & _).
  set (dC := with_step "C" _ dB2) in *.
  assert (Hrun2 : run r (handler disp src) ms1 = (Ok c, mC)).
  { change (handler disp src) with (abc hA hB hC). unfold abc.
    rewrite (run_step_eq _ _ _ _ _ _ _ EA2). rewrite (run_step_eq _ _ _ _ _ _ _ EB2).
    by rewrite (run_step_eq _ _ _ _ _ _ _ EC). }
  rewrite Hrun2 in Hsecond. cbn [fst snd] in Hsecond.
  split; [by rewrite Hsecond|].
  destruct (finalize_valid mC dC HvC) as (_ & _ & Hbj).
  exists (finalized (ctx mC) (clock (world mC)) dC), stA,
         (outcome_state (Ok b) (entry_state "B" dB)),
         (outcome_state (Ok c) (entry_state "C" dB2)).
  split. { rewrite Hsecond. cbn [snd]. unfold valid. rewrite Hbj. apply parse_to_value. }
  assert (HeB : entry_state "B" dB = stBf) by (unfold entry_state; by rewrite HlB).
  cbn [finalized __state]. 
  split. { cbn. rewrite !lookup_insert_ne by done. apply lookup_insert_eq. }
  split; [done|]. split; [done|].
  split. { cbn. rewrite lookup_insert_ne by done. apply lookup_insert_eq. }
  rewrite HeB.
  split; [done|]. split; [done|].
  split. { apply lookup_insert_eq. }
  repeat split; try done.
Qed.

End DispatcherFacts.

(** ** The attempts count of a step *)

(** C4 fails: nothing increments the attempts count of a step.
    [StepStateSchema] declares [attempts] and [execute] saves a new step
    with [attempts: 0], but the [catch] block of the step branch sets the
    status and the error only. For the workflow of the steps A, B, C on a
    freshly enqueued job, where B throws in the first invocation and
    returns in the second: the first invocation fails at B and leaves B
    saved as failed with an attempts count of 0; the second returns and
    leaves A, B and C completed, B with an attempts count of 0, not 2. *)
Lemma attempts_stay_zero :
  let disp := dispatcher_of (abc (returns (VStr "a")) (fails_before 2 (VStr "b"))
                               (returns (VStr "c"))) in
  let first := processJob disp (Some "token") (fresh_job VNull) in
  let second := processJob disp (Some "token") (redeliver first.2) in
  first.1 = Throw (new_Error "Step B failed.") ∧
  (status <$> saved_step first.2 "B") = Some failed ∧
  (attempts <$> saved_step first.2 "B") = Some 0 ∧
  second.1 = Ok (VStr "c") ∧
  (status <$> saved_step second.2 "A") = Some completed ∧
  (status <$> saved_step second.2 "B") = Some completed ∧
  (status <$> saved_step second.2 "C") = Some completed ∧
  (attempts <$> saved_step second.2 "B") = Some 0 ∧
  (attempts <$> saved_step second.2 "B") ≠ Some 2.
Proof. vm_compute. repeat split; discriminate. Qed.

(** ** The step executor and the job executor of [executor.ts] *)

Section ExecutorClaims.
Context {W : Type} `{!World W}.
Context (start complete finish : Executor.JobState → Executor.JobState).
Implicit Types (m : Executor.Machine W).

Local Arguments String.append : simpl never.

(** [executeRun] answers a completed step with the stored result as it is. *)
Lemma executeRun_cached sid (h : Handler W) m st :
  Executor.steps (Executor.state_data m) !! sid = Some st →
  Executor.status st = Executor.completed →
  let rm := Executor.executeRun sid h m in
  rm.1 = Ok {| Executor.success := true; Executor.ran := false;
               Executor.result_ := Executor.result st |} ∧
  Executor.world rm.2 = Executor.world m ∧
  Executor.state_data rm.2 = Executor.state_data m ∧
  Executor.backend rm.2 = Executor.backend m.
Proof.
  intros Hs Hc. exec_unfold. cbn. rewrite Hs. cbn [default].
  by rewrite decide_True by done.
Qed.

(** [execute] does not throw, and whichever way the workflow function ends,
    the [finally] block pushes the buffered logs into the job state, applies
    [finish], and hands the job state to the backend. [m1] is the machine on
    entry to the [finally] block. *)
Lemma execute_always_wraps_up (workflow : Executor.Workflow W) m :
  let rm := Executor.execute start complete finish workflow m in
  ∃ v m1,
    rm.1 = Ok v ∧
    Executor.state_data rm.2
    = finish (pushed (Executor.ctx___logs m1) (Executor.state_data m1)) ∧
    Executor.ctx___logs rm.2 = Executor.ctx___logs m1 ∧
    Executor.backend rm.2
    = Executor.backend m1 ++ [Executor.updateJobData (Executor.state_data rm.2)].
Proof.
  unfold Executor.execute. exec_unfold. cbn.
  destruct (Executor.run_fn _ _) as [[v|e] m1]; cbn;
    [| destruct (instanceof DelayedErrorC e);
       [| destruct (instanceof UnrecoverableErrorC e)]; cbn ];
    (eexists _, (Executor.Build_Machine _ _ _ (Executor.world m1)); cbn;
     repeat split; reflexivity).
Qed.

End ExecutorClaims.

(** ** Where [JobRunner] and [processJob] fall short *)

(** C1 fails on a cached [null]. A step whose handler returned [null] is
    saved as completed with the result [null]; calling the step again does
    not call the handler and does not touch the backend, but it returns
    [undefined], not the cached [null]. [StepExecutor.executeRun] returns
    the cached [null]. *)
Theorem cached_null_comes_back_undefined :
  let h := returns VNull in
  let first := step demo_runner "find-user" h (fresh_job VNull) in
  let again := step demo_runner "find-user" h first.2 in
  let x1 := Executor.executeRun "find-user" h fresh_executor in
  let x2 := Executor.executeRun "find-user" h x1.2 in
  first.1 = Ok VNull ∧
  (status <$> saved_step first.2 "find-user") = Some completed ∧
  (result <$> saved_step first.2 "find-user") = Some VNull ∧
  again.1 = Ok VUndef ∧
  world again.2 = world first.2 ∧
  bullJob again.2 = bullJob first.2 ∧
  x2.1 = Ok {| Executor.success := true; Executor.ran := false;
               Executor.result_ := VNull |}.
Proof. vm_compute. repeat split; reflexivity. Qed.

(** What does hold of C1: a completed step is answered without calling the
    handler or the backend, whatever the handler and the purpose, and the
    value returned is the cached result unless that result is [null]. *)
Lemma step_memoized {W} `{!World W} (r : JobRunner) sid (h : Handler W)
    (m : Machine W) d st :
  valid m d → __state d !! sid = Some st → status st = completed →
  let rm := step r sid h m in
  world rm.2 = world m ∧ bullJob rm.2 = bullJob m ∧
  (result st ≠ VNull → rm.1 = Ok (result st)) ∧
  (result st = VNull → rm.1 = Ok VUndef).
Proof.
  intros Hv Hs Hc rm. unfold rm.
  rewrite (step_completed r sid h m d st Hv Hs Hc). cbn [fst snd].
  repeat split; [|intros ->; done].
  intros Hnn. by destruct (result st).
Qed.

(** C3 fails on the throwing exit paths. [processJob] reaches its
    finalization only when the workflow function returns: an invocation
    that ends with a failed step, or with the suspend signal of a sleep,
    leaves the attempt ledger of the payload empty, although the context
    holds the attempts of the invocation; the invocation that returns
    appends its job attempt and its step attempts. *)
Theorem throwing_invocation_is_not_finalized :
  let disp := dispatcher_of (abc (returns (VStr "a")) (fails_before 2 (VStr "b"))
                               (returns (VStr "c"))) in
  let failing := processJob disp (Some "token") (fresh_job VNull) in
  let sleeping := processJob (dispatcher_of (Sleep "wait" 1000 (Return VNull)))
                    (Some "token") (fresh_job VNull) in
  let returning := processJob disp (Some "token") (redeliver failing.2) in
  failing.1 = Throw (new_Error "Step B failed.") ∧
  attempt_statuses failing.2 = [a_completed; a_failed] ∧
  saved_ledger failing.2 = Some ([], []) ∧
  sleeping.1 = Throw new_DelayedError ∧
  attempt_statuses sleeping.2 = [a_active] ∧
  saved_ledger sleeping.2 = Some ([], []) ∧
  returning.1 = Ok (VStr "c") ∧
  saved_ledger_names returning.2 = Some (["job"], ["step.B"; "step.C"]).
Proof. vm_compute. repeat split; reflexivity. Qed.

(** C6 fails in [processJob]. The entries written through the context
    logger are buffered in the context, and that is where they stay: the
    backend job of an invocation that logs is the backend job of the same
    invocation without the log call, and the payload has no [__logs]. The
    job executor of [executor.ts] does push the buffered logs into the job
    state it hands to the backend. *)
Theorem logs_are_not_persisted :
  let entry := {| level := l_info; message := "hello"; log_data := VUndef |} in
  let loud := processJob (dispatcher_of (Log l_info "hello" VUndef (Return VNull)))
                (Some "token") (fresh_job VNull) in
  let quiet := processJob (dispatcher_of (Return VNull))
                 (Some "token") (fresh_job VNull) in
  let sibling := Executor.execute (λ d, d) (λ d, d) (λ d, d)
                   {| Executor.__id := "w";
                      Executor.__fn := λ _, Executor.Log l_info "hello" VUndef
                                              (Executor.Return VNull) |}
                   fresh_executor in
  loud.1 = Ok VNull ∧
  logs (ctx loud.2) = [entry] ∧
  bullJob loud.2 = bullJob quiet.2 ∧
  get_prop (bj_data (bullJob loud.2)) "__logs" = VUndef ∧
  (∃ payload, last (Executor.backend sibling.2) = Some (Executor.updateJobData payload) ∧
              entry ∈ Executor.__logs payload).
Proof.
  vm_compute. repeat split; try reflexivity.
  eexists. split; [reflexivity|].
  apply list_elem_of_In. cbn. tauto.
Qed.

(** The two shortfalls of [processJob], for every workflow. *)

Section ProcessJobInGeneral.
Context {W : Type} `{!World W}.
Implicit Types (m : Machine W) (d : ActiveJobData).

(** An invocation that throws, on whatever path, records nothing: the
    attempt ledger of the payload, and of every payload the backend was
    handed on the way, is the ledger the invocation started from. *)
Lemma processJob_throw_records_nothing (disp : ActionDispatcher W) token m payload' d0 e :
  prepare (bj_data (bullJob m)) = Some (payload', d0) →
  let rm := processJob disp token m in
  rm.1 = Throw e →
  ∃ d1 new,
    valid rm.2 d1 ∧
    __attempts d1 = __attempts d0 ∧ __step_attempts d1 = __step_attempts d0 ∧
    bj_calls (bullJob rm.2) = bj_calls (bullJob m) ++ new ∧
    Forall (carries (__attempts d0) (__step_attempts d0)) new.
Proof.
  intros Hprep rm Hthrow.
  destruct (processJob_calls disp token m payload' d0 Hprep)
    as (d1 & new & Ha & Hs & _ & Hf & Hcase).
  fold rm in Hcase. rewrite Hthrow in Hcase. destruct Hcase as [Hv Hc].
  by exists d1, new.
Qed.

(** No payload that [processJob] hands to the backend has a [__logs]. *)
Lemma processJob_updates_have_no_logs (disp : ActionDispatcher W) token m payload' d0 :
  prepare (bj_data (bullJob m)) = Some (payload', d0) →
  let rm := processJob disp token m in
  ∃ new, bj_calls (bullJob rm.2) = bj_calls (bullJob m) ++ new ∧
         ∀ p, bull_updateData p ∈ new → get_prop p "__logs" = VUndef.
Proof.
  intros Hprep rm.
  destruct (processJob_calls disp token m payload' d0 Hprep)
    as (d1 & new & Ha & Hs & _ & Hf & Hcase).
  fold rm in Hcase.
  assert (Hnew : ∀ p, bull_updateData p ∈ new → get_prop p "__logs" = VUndef).
  { intros p Hin. rewrite Forall_forall in Hf.
    destruct (Hf _ Hin p eq_refl) as (d & -> & _). reflexivity. }
  destruct rm.1.
  - destruct Hcase as (c & now & Hv & Hc).
    exists (new ++ [bull_updateData (ActiveJob_to_value (finalized c now d1))]).
    split; [exact Hc|].
    intros p Hin. apply elem_of_app in Hin as [Hin|Hin]; [by apply Hnew|].
    apply list_elem_of_singleton in Hin. by simplify_eq.
  - destruct Hcase as [Hv Hc]. by exists new.
Qed.

(** No invocation changes the attempts count of a step: after [processJob],
    whichever way it ended, every step of the payload has the count it had
    before, and a step saved by this invocation has 0. *)
Lemma processJob_keeps_attempts (disp : ActionDispatcher W) token m payload' d0
    dfin sid st :
  prepare (bj_data (bullJob m)) = Some (payload', d0) →
  valid (processJob disp token m).2 dfin →
  __state dfin !! sid = Some st →
  attempts st = from_option attempts 0 (__state d0 !! sid).
Proof.
  intros Hprep Hvfin Hst.
  destruct (processJob_calls disp token m payload' d0 Hprep)
    as (d1 & new & _ & _ & [_ Hk] & _ & Hcase).
  unfold valid in *.
  destruct (processJob disp token m).1.
  - destruct Hcase as (c & now & Hv & _).
    rewrite Hv in Hvfin. simplify_eq. by apply Hk.
  - destruct Hcase as [Hv _]. rewrite Hv in Hvfin. simplify_eq. by apply Hk.
Qed.

End ProcessJobInGeneral.

(** * Further properties of the code

    What the functions of the sources do beyond the claims above: the rest
    of the runtime API of [JobRunner.ts], the job executor of
    [executor.ts], and the queue side of [Dispatcher.ts] and [Client.ts]. *)

(** ** The runtime API on a machine, with its context *)

Section RunnerContextFacts.
Context {W : Type} `{!World W}.
Implicit Types (m : Machine W) (d : ActiveJobData) (r : JobRunner) (h : Handler W).

Local Arguments String.append : simpl never.
Local Arguments pretty : simpl never.

Lemma alter_last {A} (f : A → A) (l : list A) (a : A) :
  alter f (length l) (l ++ [a]) = l ++ [f a].
Proof. by rewrite <- (Nat.add_0_r (length l)), alter_app_r. Qed.

Lemma step_runs_ctx r sid h m d :
  valid m d → purpose r = p_execute → not_completed sid d →
  let out := h (world m) in
  let rm := step r sid h m in
  stepAttempts (ctx rm.2)
  = stepAttempts (ctx m) ++ [step_attempt_of sid (clock (world m)) out.1 (clock out.2)] ∧
  steps (ctx rm.2) = steps (ctx m) ++ [{| id := sid; alt := AltStep h |}] ∧
  jobAttempt (ctx rm.2) = jobAttempt (ctx m).
Proof.
  intros Hv Hp Hnc. unfold valid in Hv.
  destruct (__state d !! sid) as [st|] eqn:Hs.
  - assert (Hst : status st ≠ completed) by by apply Hnc.
    eff_unfold. rewrite Hp.
    eff_go ltac:(rewrite ?Hv, ?Hs).
    destruct (h (world m)) as [[v|e] w'];
      eff_go ltac:(rewrite ?Hv, ?Hs); rewrite ?alter_last; done.
  - eff_unfold. rewrite Hp.
    eff_go ltac:(rewrite ?Hv, ?Hs).
    destruct (h (world m)) as [[v|e] w'];
      eff_go ltac:(rewrite ?Hv, ?Hs); rewrite ?alter_last; done.
Qed.

Lemma sleep_first_pass_ctx r sid duration m d :
  valid m d → purpose r = p_execute → not_completed sid d →
  let rm := sleep r sid duration m in
  stepAttempts (ctx rm.2)
  = stepAttempts (ctx m) ++ [new_ContextAttempt Job.step ("step." +:+ sid) (clock (world m))] ∧
  steps (ctx rm.2) = steps (ctx m) ++ [{| id := sid; alt := AltSleep duration |}] ∧
  jobAttempt (ctx rm.2) = jobAttempt (ctx m).
Proof.
  intros Hv Hp Hnc. unfold valid in Hv.
  destruct (__state d !! sid) as [st|] eqn:Hs.
  - assert (Hst : status st ≠ completed) by by apply Hnc.
    eff_unfold. rewrite Hp.
    eff_go ltac:(rewrite ?Hv, ?Hs).
    destruct (duration =? 0);
      eff_go ltac:(rewrite ?Hv, ?Hs); done.
  - eff_unfold. rewrite Hp.
    eff_go ltac:(rewrite ?Hv, ?Hs).
    destruct (duration =? 0);
      eff_go ltac:(rewrite ?Hv, ?Hs); done.
Qed.

(** With the purpose [analyze], a call is answered from the payload or
    refused. *)
Lemma step_analyze r sid h m :
  purpose r = p_analyze →
  let rm := step r sid h m in
  world rm.2 = world m ∧ bullJob rm.2 = bullJob m ∧
  stepAttempts (ctx rm.2) = stepAttempts (ctx m) ∧
  jobAttempt (ctx rm.2) = jobAttempt (ctx m) ∧
  ∀ d, valid m d → not_completed sid d →
       rm.1 = Throw (new_Error ("Step " +:+ sid +:+ " is not runnable")).
Proof.
  intros Hp. eff_unfold. rewrite Hp.
  destruct (parse (bj_data (bullJob m))) as [d0|] eqn:Hv.
  - destruct (__state d0 !! sid) as [st|] eqn:Hs.
    + destruct (decide (status st = completed)) as [Hc|Hc].
      * eff_go ltac:(rewrite ?Hv, ?Hs, ?Hc). repeat split; try done.
        intros d Hd Hnc. unfold valid in Hd. simplify_eq. by destruct (Hnc st Hs).
      * eff_go ltac:(rewrite ?Hv, ?Hs). repeat split; try done.
    + eff_go ltac:(rewrite ?Hv, ?Hs). repeat split; try done.
  - eff_go ltac:(rewrite ?Hv). repeat split; try done.
    intros d Hd. unfold valid in Hd. congruence.
Qed.

Lemma sleep_analyze r sid duration m :
  purpose r = p_analyze →
  let rm := sleep r sid duration m in
  world rm.2 = world m ∧ bullJob rm.2 = bullJob m ∧
  stepAttempts (ctx rm.2) = stepAttempts (ctx m) ∧
  jobAttempt (ctx rm.2) = jobAttempt (ctx m) ∧
  ∀ d, valid m d → not_completed sid d →
       rm.1 = Throw (new_Error ("Step " +:+ sid +:+ " is not runnable")).
Proof.
  intros Hp. eff_unfold. rewrite Hp.
  destruct (parse (bj_data (bullJob m))) as [d0|] eqn:Hv.
  - destruct (__state d0 !! sid) as [st|] eqn:Hs.
    + destruct (decide (status st = completed)) as [Hc|Hc].
      * eff_go ltac:(rewrite ?Hv, ?Hs, ?Hc). repeat split; try done.
        intros d Hd Hnc. unfold valid in Hd. simplify_eq. by destruct (Hnc st Hs).
      * eff_go ltac:(rewrite ?Hv, ?Hs). repeat split; try done.
    + eff_go ltac:(rewrite ?Hv, ?Hs). repeat split; try done.
  - eff_go ltac:(rewrite ?Hv). repeat split; try done.
    intros d Hd. unfold valid in Hd. congruence.
Qed.


Lemma step_invalid r sid h m :
  parse (bj_data (bullJob m)) = None → step r sid h m = (Throw ZodError, m).
Proof. intros Hv. eff_unfold. by eff_go ltac:(rewrite ?Hv). Qed.


Lemma frozen_refl d : frozen d d.
Proof. by intros sid st. Qed.

Lemma frozen_with_step sid st d : not_completed sid d → frozen d (with_step sid st d).
Proof.
  intros Hnc sid0 st0 Hs0 Hc0. cbn.
  destruct (decide (sid = sid0)) as [->|Hne]; [by destruct (Hnc st0 Hs0)|].
  by rewrite lookup_insert_ne.
Qed.

Lemma call_kept_same m m' :
  bullJob m' = bullJob m → jobAttempt (ctx m') = jobAttempt (ctx m) → call_kept m m'.
Proof.
  intros Hb Hj. split; [done|]. intros d Hv. exists d. unfold valid in *.
  rewrite Hb. split; [done|]. split; [apply frozen_refl | done].
Qed.


Lemma step_call_kept r sid h m : purpose r = p_execute → call_kept m (step r sid h m).2.
Proof.
  intros Hp.
  destruct (parse (bj_data (bullJob m))) as [d|] eqn:Hv;
    [|rewrite step_invalid by done; by apply call_kept_same].
  destruct (completed_or_not sid d) as [(st & Hs & Hc)|Hnc].
  - rewrite (step_completed r sid h m d st Hv Hs Hc). by apply call_kept_same.
  - destruct (step_runs r sid h m d Hv Hp Hnc) as (_ & _ & Hbj).
    destruct (step_runs_ctx r sid h m d Hv Hp Hnc) as (_ & _ & Hj).
    split; [exact Hj|]. intros d1 Hv1. unfold valid in Hv1. simplify_eq.
    eexists. split; [apply with_step_valid; by rewrite Hbj|].
    split; [by apply frozen_with_step | done].
Qed.



Lemma processJob_bad_input (disp : ActionDispatcher W) token m payload' d0 :
  prepare (bj_data (bullJob m)) = Some (payload', d0) →
  schema_ disp (source d0) = None →
  processJob disp token m = (Throw ZodError, started payload' m).
Proof.
  intros Hprep Hsch. pose proof (prepare_parse _ _ _ Hprep) as Hv0.
  unfold processJob, new_ActiveJob, getSourceData. eff_unfold.
  cbn. rewrite Hprep. cbn. rewrite Hv0. cbn. by rewrite Hsch.
Qed.

Lemma processJob_unprepared (disp : ActionDispatcher W) token m :
  prepare (bj_data (bullJob m)) = None →
  processJob disp token m = (Throw ZodError, m).
Proof.
  intros Hprep. unfold processJob, new_ActiveJob. eff_unfold.
  cbn. by rewrite Hprep.
Qed.



End RunnerContextFacts.

(** ** Whole invocations and single calls *)

Section RunnerExtras.
Context {W : Type} `{!World W}.
Implicit Types (m : Machine W) (d : ActiveJobData) (r : JobRunner) (h : Handler W).

Local Arguments String.append : simpl never.
Local Arguments pretty : simpl never.

(** X1. A job that does not validate is refused before anything runs. When
    constructing the [ActiveJob] fails (the payload of the backend job does
    not pass [ActiveJobSchema]) or [getSourceData] fails (the source does
    not pass the schema of the dispatcher), [processJob] throws the
    [ZodError]; no step handler has run (the world is as it was) and the
    backend has received no call. A payload that is not an object (a string,
    a number, an array, [null]) never passes validation, and an invocation
    on a payload that does not pass leaves the machine as it found it. *)
Theorem invalid_job_is_refused (disp : ActionDispatcher W) token m :
  workflow_input disp (bullJob m) = None →
  let rm := processJob disp token m in
  rm.1 = Throw ZodError ∧
  world rm.2 = world m ∧
  bj_calls (bullJob rm.2) = bj_calls (bullJob m) ∧
  (fields_of (bj_data (bullJob m)) = None → parse (bj_data (bullJob m)) = None) ∧
  (parse (bj_data (bullJob m)) = None → rm.2 = m).
Proof.
  intros Hin rm. unfold workflow_input, new_ActiveJob, getSourceData, getParsedData in Hin.
  destruct (prepare (bj_data (bullJob m))) as [[payload' d0]|] eqn:Hprep.
  - cbn in Hin. rewrite (prepare_parse _ _ _ Hprep) in Hin. cbn in Hin.
    unfold rm. rewrite (processJob_bad_input disp token m payload' d0 Hprep Hin).
    cbn. repeat split.
    + intros Hf. unfold parse, ActiveJobSchema. by rewrite Hf.
    + intros Hp. unfold prepare in Hprep. by rewrite Hp in Hprep.
  - unfold rm. rewrite (processJob_unprepared disp token m Hprep).
    repeat split. intros Hf. unfold parse, ActiveJobSchema. by rewrite Hf.
Qed.

(** X2. A runner constructed with the purpose [analyze] executes nothing.
    Whatever the workflow and the payload, running it leaves the world and
    the backend job as they were and records no step attempt; a step or a
    sleep that the payload does not show as completed is refused with the
    error [Step <id> is not runnable]. *)
Theorem analyze_runs_nothing r (wf k : Workflow W) m sid h (kv : value → Workflow W)
    duration d :
  purpose r = p_analyze →
  (let rm := run r wf m in
   world rm.2 = world m ∧ bullJob rm.2 = bullJob m ∧
   stepAttempts (ctx rm.2) = stepAttempts (ctx m)) ∧
  (valid m d → not_completed sid d →
   (run r (Step sid h kv) m).1
   = Throw (new_Error ("Step " +:+ sid +:+ " is not runnable")) ∧
   (run r (Sleep sid duration k) m).1
   = Throw (new_Error ("Step " +:+ sid +:+ " is not runnable"))).
Proof.
  intros Hp. split.
  - revert m.
    induction wf as [v|e|sid' h' k' IH|sid' duration' k' IH|lvl msg dt k' IH];
      intros m; cbn [run].
    + done.
    + done.
    + unfold bind. destruct (step_analyze r sid' h' m Hp) as (Hw & Hb & Ha & _).
      destruct (step r sid' h' m) as [[v|e] m']; cbn in *; [|done].
      destruct (IH v m') as (Hw' & Hb' & Ha'). repeat split; congruence.
    + unfold bind. destruct (sleep_analyze r sid' duration' m Hp) as (Hw & Hb & Ha & _).
      destruct (sleep r sid' duration' m) as [[v|e] m']; cbn in *; [|done].
      destruct (IH m') as (Hw' & Hb' & Ha'). repeat split; congruence.
    + unfold bind. cbn.
      destruct (IH (logged {| level := lvl; message := msg; log_data := dt |} m))
        as (Hw' & Hb' & Ha').
      done.
  - intros Hv Hnc. split; cbn [run].
    + destruct (step_analyze r sid h m Hp) as (_ & _ & _ & _ & Hres).
      by erewrite bind_fst_throw by by eapply Hres.
    + destruct (sleep_analyze r sid duration m Hp) as (_ & _ & _ & _ & Hres).
      by erewrite bind_fst_throw by by eapply Hres.
Qed.

(** X3. One attempt per executed step. For an id that names no member of
    [Object.prototype]: a call of [step] that executes the handler adds
    exactly one attempt to the context, named [step.<id>], started at the
    time of the call, and either completed at the time the handler returned
    or failed with the value the handler threw, and it registers the step
    in [ctx.steps]; a call that is answered from the payload adds no
    attempt and registers nothing. The job attempt of the context is not
    touched. *)
Theorem step_records_one_attempt r sid h m d :
  ordinary_id sid = true →
  valid m d → purpose r = p_execute →
  let out := h (world m) in
  let rm := step r sid h m in
  jobAttempt (ctx rm.2) = jobAttempt (ctx m) ∧
  (not_completed sid d →
   stepAttempts (ctx rm.2)
   = stepAttempts (ctx m)
     ++ [step_attempt_of sid (clock (world m)) out.1 (clock out.2)] ∧
   steps (ctx rm.2) = steps (ctx m) ++ [{| id := sid; alt := AltStep h |}]) ∧
  (∀ st, __state d !! sid = Some st → status st = completed →
         stepAttempts (ctx rm.2) = stepAttempts (ctx m) ∧
         steps (ctx rm.2) = steps (ctx m)).
Proof.
  intros _ Hv Hp out rm.
  split; [apply (step_call_kept r sid h m Hp)|]. split.
  - intros Hnc. by destruct (step_runs_ctx r sid h m d Hv Hp Hnc) as (? & ? & _).
  - intros st Hs Hc. unfold rm. by rewrite (step_completed r sid h m d st Hv Hs Hc).
Qed.

(** X4. The attempt of a sleep is never closed. The first pass of a sleep,
    called by an id that names no member of [Object.prototype], saves the
    step as completed with the result [null], but the attempt it adds to
    the context stays [active], without an end: the sleep branch of
    [StepRunner.execute] calls neither [attempt.complete] nor
    [attempt.fail]. This holds for every integer duration, zero
    included. *)
Theorem sleep_attempt_stays_active r sid duration m d :
  ordinary_id sid = true →
  valid m d → purpose r = p_execute → not_completed sid d →
  let rm := sleep r sid duration m in
  (∃ st', saved_step rm.2 sid = Some st' ∧ status st' = completed ∧ result st' = VNull) ∧
  ∃ a, stepAttempts (ctx rm.2) = stepAttempts (ctx m) ++ [a] ∧
       a_name a = "step." +:+ sid ∧ a_type a = Job.step ∧
       a_status a = a_active ∧ a_start a = clock (world m) ∧ a_end a = NNull.
Proof.
  intros _ Hv Hp Hnc rm. split.
  - destruct (sleep_first_pass r sid duration m d Hv Hp Hnc) as (_ & _ & Hbj).
    fold rm in Hbj. unfold saved_step. rewrite Hbj. cbn [bj_data].
    rewrite parse_to_value. cbn. rewrite lookup_insert_eq. by eexists.
  - destruct (sleep_first_pass_ctx r sid duration m d Hv Hp Hnc) as (Ha & _ & _).
    eexists. split; [exact Ha|]. done.
Qed.



(** X7. [setState] and [getState] round-trip. On a valid payload, for a
    step whose id names no member of [Object.prototype],
    [StepRunner.setState] with a step state hands the backend one update,
    the payload with the state of this step replaced, and changes nothing
    else; [getState] of the same step then returns the state that was set,
    and [getState] of any other step, its id no such name either, returns
    what the payload held for it before. *)
Theorem setState_then_getState (o o' : RunnerStepOptions W) st m d :
  ordinary_id (id o) = true →
  valid m d →
  let rm := setState o st m in
  rm.1 = Ok () ∧ world rm.2 = world m ∧ ctx rm.2 = ctx m ∧
  bullJob rm.2
  = call (bull_updateData (ActiveJob_to_value (with_step (id o) st d))) (bullJob m) ∧
  getState o rm.2 = (Ok (Some st), rm.2) ∧
  (ordinary_id (id o') = true → id o' ≠ id o →
   getState o' rm.2 = (Ok (__state d !! id o'), rm.2)).
Proof.
  intros _ Hv. unfold valid in Hv. eff_unfold.
  eff_go ltac:(rewrite ?Hv). repeat split.
  intros _ Hne. by rewrite lookup_insert_ne.
Qed.

(** X8. Steps and sleeps share their identifiers. For an id that names no
    member of [Object.prototype] and an integer duration for which the time
    to wake up is the exact sum: once a plain step has completed, a sleep
    called with the same id is skipped: it returns at once and the job is
    not delayed. And once a sleep has made its first pass, a plain step
    called with the same id does not run its handler and returns
    [undefined]. *)
Theorem step_ids_are_one_namespace r sid h v w' duration m d :
  ordinary_id sid = true → exact_delay (clock (world m)) duration = true →
  valid m d → purpose r = p_execute → not_completed sid d →
  h (world m) = (Ok v, w') →
  (let m1 := (step r sid h m).2 in
   sleep r sid duration m1 = (Ok VUndef, logged (already_completed sid) m1)) ∧
  (let m2 := (sleep r sid duration m).2 in
   ∀ h', step r sid h' m2 = (Ok VUndef, logged (already_completed sid) m2)).
Proof.
  intros _ _ Hv Hp Hnc Hh. split.
  - intros m1.
    destruct (step_runs_eq r sid h m d (Ok v) w' Hv Hp Hnc Hh) as (m' & Heq & _ & Hv' & _).
    unfold m1. rewrite Heq. cbn [snd].
    eapply sleep_completed; [exact Hv' | apply lookup_insert_eq | done].
  - intros m2 h'.
    destruct (sleep_first_pass r sid duration m d Hv Hp Hnc) as (_ & _ & Hbj).
    fold m2 in Hbj.
    erewrite step_completed;
      [ | apply with_step_valid; by rewrite Hbj | apply lookup_insert_eq | done ].
    done.
Qed.

(** X9. Replay. When every step and sleep that a workflow reaches is saved
    as completed in the payload, running the workflow calls no handler and
    no backend operation and records no attempt, for either purpose; it
    ends the way its last [return] or [throw] says, each step having
    returned the value that [step] gives for its saved result. *)
Theorem completed_workflow_replays_without_effects r (wf : Workflow W) m d :
  valid m d → replays d wf →
  let rm := run r wf m in
  rm.1 = replayed d wf ∧
  world rm.2 = world m ∧ bullJob rm.2 = bullJob m ∧
  stepAttempts (ctx rm.2) = stepAttempts (ctx m) ∧ steps (ctx rm.2) = steps (ctx m).
Proof.
  revert m.
  induction wf as [v|e|sid h k IH|sid duration k IH|lvl msg dt k IH];
    intros m Hv Hr; cbn [run replayed].
  - done.
  - done.
  - destruct Hr as (st & Hs & Hc & Hr).
    unfold bind. rewrite (step_completed r sid h m d st Hv Hs Hc). rewrite Hs. cbn [from_option].
    destruct (IH _ (logged (already_completed sid) m) Hv Hr) as (? & ? & ? & ? & ?).
    done.
  - destruct Hr as ((st & Hs & Hc) & Hr).
    unfold bind. rewrite (sleep_completed r sid duration m d st Hv Hs Hc).
    destruct (IH (logged (already_completed sid) m) Hv Hr) as (? & ? & ? & ? & ?).
    done.
  - unfold bind. cbn.
    destruct (IH (logged {| level := lvl; message := msg; log_data := dt |} m) Hv Hr)
      as (? & ? & ? & ? & ?).
    done.
Qed.

End RunnerExtras.

(** X10. [ContextAttempt.format] stamps the end once. Formatting an attempt
    at a time other than 0 fixes its end: formatting it again at any later
    time returns the same entry and leaves the attempt as it is. The entry
    keeps the name, status and error of the attempt; for an attempt
    completed at [tc] the end is [tc] and the duration runs from the start
    to [tc]; for a failed attempt, whose [fail] sets no end, the end is the
    time of formatting. *)
Theorem format_is_stable (a : AttemptData) (t1 t2 : Z) :
  t1 ≠ 0 →
  let f := ContextAttempt_format t1 a in
  ContextAttempt_format t2 f.1 = f ∧
  a_name f.2 = a_name a ∧ a_status f.2 = a_status a ∧ a_error f.2 = a_error a ∧
  (∀ a0 tc, a = ContextAttempt_complete tc a0 → tc ≠ 0 →
            a_end f.2 = NSome tc ∧ a_duration f.2 = NSome (tc - a_start a0)) ∧
  (∀ ty name t0 e, a = ContextAttempt_fail e (new_ContextAttempt ty name t0) →
            a_end f.2 = NSome t1 ∧ a_duration f.2 = NSome (t1 - t0)).
Proof.
  intros Ht1 f. split; [|split; [done|split; [done|split; [done|split]]]].
  - unfold f, ContextAttempt_format. cbn.
    destruct (a_end a) as [| |e]; cbn.
    + by destruct (Z.eqb_spec t1 0).
    + by destruct (Z.eqb_spec t1 0).
    + destruct (Z.eqb_spec e 0) as [->|He]; cbn.
      * by destruct (Z.eqb_spec t1 0).
      * by destruct (Z.eqb_spec e 0).
  - intros a0 tc -> Htc. unfold f, ContextAttempt_format. cbn.
    by destruct (Z.eqb_spec tc 0).
  - intros ty name t0 e ->. done.
Qed.

(** *** The properties above at concrete jobs *)

Lemma replayed_job_valid : valid replayed_job job_with_A.
Proof. apply parse_to_value. Qed.

Lemma invalid_job_is_refused_witness :
  let disp := dispatcher_of (Return VNull) in
  let m := boot {| bj_data := VStr "raw"; bj_calls := [] |} 0 in
  workflow_input disp (bullJob m) = None ∧
  processJob disp None m = (Throw ZodError, m).
Proof.
  intros disp m.
  assert (H : workflow_input disp (bullJob m) = None) by (vm_compute; reflexivity).
  destruct (invalid_job_is_refused disp None m H) as (Hr & _ & _ & Hf & Hm).
  split; [exact H|].
  rewrite (surjective_pairing (processJob disp None m)), Hr, Hm; [done|].
  apply Hf. vm_compute; reflexivity.
Defined.

Lemma analyze_runs_nothing_witness :
  let m := fresh_job VNull in
  let wf := Step "A" (returns (VStr "a")) (λ v, Return v) in
  let rm := run analyzer wf m in
  valid m (wrapped VNull) ∧ not_completed "A" (wrapped VNull) ∧
  rm.1 = Throw (new_Error "Step A is not runnable") ∧
  world rm.2 = world m ∧ bullJob rm.2 = bullJob m.
Proof.
  intros m wf rm.
  assert (Hv : valid m (wrapped VNull)) by (vm_compute; reflexivity).
  destruct (analyze_runs_nothing analyzer wf (Return VNull) m "A" (returns (VStr "a"))
              (λ v, Return v) 1000 (wrapped VNull) eq_refl)
    as ((Hw & Hb & _) & Hrefuse).
  destruct (Hrefuse Hv ltac:(intros st Hst; vm_compute in Hst; discriminate)) as (Hres & _).
  split; [exact Hv|]. split; [apply wrapped_not_completed|].
  split; [exact Hres|]. split; [exact Hw | exact Hb].
Defined.

Lemma step_records_one_attempt_witness :
  let m := fresh_job VNull in
  let rm := step demo_runner "A" (returns (VStr "a")) m in
  ordinary_id "A" = true ∧
  valid m (wrapped VNull) ∧ not_completed "A" (wrapped VNull) ∧
  stepAttempts (ctx rm.2)
  = [{| a_type := Job.step; a_status := a_completed; a_name := "step.A"; a_start := 0;
        a_end := NSome 1; a_duration := NAbsent; a_error := VNull |}].
Proof.
  intros m rm.
  assert (Hid : ordinary_id "A" = true) by (vm_compute; reflexivity).
  assert (Hv : valid m (wrapped VNull)) by (vm_compute; reflexivity).
  destruct (step_records_one_attempt demo_runner "A" (returns (VStr "a")) m (wrapped VNull)
              Hid Hv eq_refl) as (_ & Hrun & _).
  destruct (Hrun ltac:(intros st Hst; vm_compute in Hst; discriminate)) as (Ha & _).
  split; [exact Hid|]. split; [exact Hv|]. split; [apply wrapped_not_completed|].
  fold rm in Ha. rewrite Ha. reflexivity.
Defined.

Lemma sleep_attempt_stays_active_witness :
  let m := fresh_job VNull in
  let rm := sleep demo_runner "wait" 1000 m in
  ordinary_id "wait" = true ∧
  valid m (wrapped VNull) ∧ not_completed "wait" (wrapped VNull) ∧
  (status <$> saved_step rm.2 "wait") = Some completed ∧
  (a_status <$> stepAttempts (ctx rm.2)) = [a_active].
Proof.
  intros m rm.
  assert (Hid : ordinary_id "wait" = true) by (vm_compute; reflexivity).
  assert (Hv : valid m (wrapped VNull)) by (vm_compute; reflexivity).
  assert (Hnc : not_completed "wait" (wrapped VNull)) by apply wrapped_not_completed.
  pose proof (sleep_attempt_stays_active demo_runner "wait" 1000 m (wrapped VNull)
                Hid Hv eq_refl Hnc) as H.
  cbv zeta in H. destruct H as [H1 H2].
  destruct H1 as (st' & Hs & Hc & _). destruct H2 as (a & Ha & _ & _ & Hact & _).
  split; [exact Hid|]. split; [exact Hv|]. split; [exact Hnc|]. split.
  - unfold rm. rewrite Hs. cbn [fmap option_fmap option_map]. by rewrite Hc.
  - unfold rm. rewrite Ha. rewrite fmap_app. cbn [fmap list_fmap]. by rewrite Hact.
Defined.



Lemma setState_then_getState_witness :
  let o := {| id := "A"; alt := AltSleep 5 |} in
  let rm := setState o done_A (fresh_job VNull) in
  ordinary_id (id o) = true ∧
  valid (fresh_job VNull) (wrapped VNull) ∧
  getState o rm.2 = (Ok (Some done_A), rm.2).
Proof.
  intros o rm.
  assert (Hid : ordinary_id (id o) = true) by (vm_compute; reflexivity).
  assert (Hv : valid (fresh_job VNull) (wrapped VNull)) by (vm_compute; reflexivity).
  destruct (setState_then_getState o o done_A (fresh_job VNull) (wrapped VNull) Hid Hv)
    as (_ & _ & _ & _ & Hget & _).
  split; [exact Hid|]. split; [exact Hv | exact Hget].
Defined.

Lemma step_ids_are_one_namespace_witness :
  let m := fresh_job VNull in
  let m1 := (step demo_runner "A" (returns (VStr "a")) m).2 in
  let m2 := (sleep demo_runner "A" 1000 m).2 in
  ordinary_id "A" = true ∧ exact_delay (clock (world m)) 1000 = true ∧
  valid m (wrapped VNull) ∧ not_completed "A" (wrapped VNull) ∧
  (sleep demo_runner "A" 1000 m1).1 = Ok VUndef ∧
  (step demo_runner "A" (returns (VStr "a")) m2).1 = Ok VUndef.
Proof.
  intros m m1 m2.
  assert (Hid : ordinary_id "A" = true) by (vm_compute; reflexivity).
  assert (Hex : exact_delay (clock (world m)) 1000 = true) by (vm_compute; reflexivity).
  assert (Hv : valid m (wrapped VNull)) by (vm_compute; reflexivity).
  destruct (step_ids_are_one_namespace demo_runner "A" (returns (VStr "a")) (VStr "a") 1
              1000 m (wrapped VNull) Hid Hex Hv eq_refl
              ltac:(intros st Hst; vm_compute in Hst; discriminate) eq_refl)
    as (Hsl & Hst).
  split; [exact Hid|]. split; [exact Hex|].
  split; [exact Hv|]. split; [apply wrapped_not_completed|].
  fold m1 in Hsl. fold m2 in Hst. split; [by rewrite Hsl | by rewrite Hst].
Defined.

Lemma completed_workflow_replays_without_effects_witness :
  let wf := Step "A" (throws (new_Error "boom")) (λ v, Return v) in
  let rm := run demo_runner wf replayed_job in
  valid replayed_job job_with_A ∧ replays job_with_A wf ∧
  rm.1 = Ok (VStr "a") ∧ world rm.2 = 0 ∧ bullJob rm.2 = bullJob replayed_job.
Proof.
  intros wf rm.
  assert (Hr : replays job_with_A wf).
  { exists done_A. split; [vm_compute; reflexivity|]. split; [reflexivity | exact I]. }
  destruct (completed_workflow_replays_without_effects demo_runner wf replayed_job
              job_with_A replayed_job_valid Hr) as (Hres & Hw & Hb & _).
  split; [exact replayed_job_valid|]. split; [exact Hr|].
  fold rm in Hres, Hw, Hb. split; [|split; [exact Hw | exact Hb]].
  rewrite Hres. vm_compute. reflexivity.
Defined.

Lemma format_is_stable_witness :
  let a := ContextAttempt_fail (new_Error "boom") (new_ContextAttempt Job.step "step.A" 5) in
  let f := ContextAttempt_format 7 a in
  7 ≠ 0 ∧ ContextAttempt_format 9 f.1 = f ∧
  a_end f.2 = NSome 7 ∧ a_duration f.2 = NSome 2.
Proof.
  intros a f.
  destruct (format_is_stable a 7 9 ltac:(lia)) as (Hs & _ & _ & _ & _ & Hf).
  destruct (Hf Job.step "step.A" 5 (new_Error "boom") eq_refl) as (He & Hd).
  split; [lia|]. split; [exact Hs|]. split; [exact He | exact Hd].
Defined.

(** ** The executor of [executor.ts] *)

Section ExecutorExtras.
Context {W : Type} `{!World W}.
Context (start complete finish : Executor.JobState → Executor.JobState).
Implicit Types (m : Executor.Machine W).

Local Arguments String.append : simpl never.



(** X13. [StepExecutor.executeSleep] tests for [delayed] only. On a step
    that is not marked [delayed] it asks for a delay and throws the
    [DelayedError], for every duration (zero and negative ones included); on
    the next pass it completes the step; and on the pass after that, finding
    the step completed and not [delayed], it marks it [delayed], asks for a
    delay and throws the [DelayedError] again. ([executeRun] skips a
    completed step; [executeSleep] has no such test. The transitions of
    [StepStateManager] are embedded as described with [Executor].) *)
Theorem completed_sleep_sleeps_again sid (d1 d2 d3 : Z) m :
  Executor.status (default (Executor.fresh sid)
                     (Executor.steps (Executor.state_data m) !! sid))
    ≠ Executor.delayed →
  let r1 := Executor.executeSleep sid d1 m in
  let r2 := Executor.executeSleep sid d2 r1.2 in
  let r3 := Executor.executeSleep sid d3 r2.2 in
  let now := clock (Executor.world m) in
  r1.1 = Throw new_DelayedError ∧
  r2.1 = Ok {| Executor.success := true; Executor.ran := true;
               Executor.result_ := VBool true |} ∧
  (Executor.status <$> Executor.steps (Executor.state_data r2.2) !! sid)
  = Some Executor.completed ∧
  r3.1 = Throw new_DelayedError ∧
  (Executor.status <$> Executor.steps (Executor.state_data r3.2) !! sid)
  = Some Executor.delayed ∧
  Executor.backend r3.2
  = Executor.backend m ++ [Executor.delayUntil (now + d1); Executor.delayUntil (now + d3)].
Proof.
  intros Hnd r1 r2 r3 now.
  destruct (executeSleep_first_pass sid d1 m Hnd) as (H1 & Hs1 & _ & Hb1 & Hw1 & _).
  fold r1 in H1, Hs1, Hb1, Hw1.
  destruct (executeSleep_resume sid d2 r1.2 _ Hs1 eq_refl) as (H2 & Hs2 & Hb2 & Hw2).
  fold r2 in H2, Hs2, Hb2, Hw2.
  assert (Hnd2 : Executor.status
                   (default (Executor.fresh sid)
                      (Executor.steps (Executor.state_data r2.2) !! sid))
                 ≠ Executor.delayed) by by rewrite Hs2.
  destruct (executeSleep_first_pass sid d3 r2.2 Hnd2) as (H3 & Hs3 & _ & Hb3 & _ & _).
  fold r3 in H3, Hs3, Hb3.
  split; [exact H1|]. split; [exact H2|]. split; [by rewrite Hs2|].
  split; [exact H3|]. split; [by rewrite Hs3|].
  rewrite Hb3, Hb2, Hb1, Hw2, Hw1. by rewrite <- app_assoc.
Qed.

End ExecutorExtras.


Lemma completed_sleep_sleeps_again_witness :
  let r1 := Executor.executeSleep "wait" 1000 fresh_executor in
  let r2 := Executor.executeSleep "wait" 1000 r1.2 in
  let r3 := Executor.executeSleep "wait" 0 r2.2 in
  r1.1 = Throw new_DelayedError ∧
  r2.1 = Ok {| Executor.success := true; Executor.ran := true;
               Executor.result_ := VBool true |} ∧
  r3.1 = Throw new_DelayedError ∧
  Executor.backend r3.2 = [Executor.delayUntil 1000; Executor.delayUntil 0].
Proof.
  intros r1 r2 r3.
  destruct (completed_sleep_sleeps_again "wait" 1000 1000 0 fresh_executor
              ltac:(vm_compute; discriminate)) as (H1 & H2 & _ & H3 & _ & Hb).
  split; [exact H1|]. split; [exact H2|]. split; [exact H3|]. exact Hb.
Defined.

(** ** Adding jobs *)

Section QueueExtras.
Context {W : Type} `{!World W}.
Implicit Types (d : Queueing.ActionDispatcher W) (s : Queueing.Handles).

Local Arguments String.append : simpl never.

Ltac queue_unfold :=
  cbv [Queueing.addJob Queueing.addBulkJobs Queueing.init Queueing.start Queueing.pause
       Queueing.startQueue Queueing.pauseQueue Queueing.on_queue Queueing.on_worker
       Queueing.queue_member Queueing.lift_zod
       bind ret throw attempt_ finally_ gets modify].

Lemma formatNewJobData_wrapped data :
  Queueing.formatNewJobData data = Some (ActiveJob_to_value (wrapped data)).
Proof. reflexivity. Qed.

Lemma addJob_eq d (input options_ : value) s q parsed opts :
  Queueing.bullQueue s = Some q →
  Queueing.schema (Queueing.options d) input = Some parsed →
  Queueing.formatJobOptions (match options_ with VUndef => VObj [] | _ => options_ end)
  = Some opts →
  let payload := ActiveJob_to_value (wrapped parsed) in
  Queueing.addJob d input options_ s
  = (Ok {| bj_data := payload; bj_calls := [] |},
     {| Queueing.client := Queueing.client s;
        Queueing.bullQueue :=
          Some (queue_called (Queueing.queue_add "default" payload opts) q);
        Queueing.bullWorker := Queueing.bullWorker s |}).
Proof.
  intros Hq Hs Ho. queue_unfold. rewrite Hs, formatNewJobData_wrapped, Hq, Ho, Hq. done.
Qed.

(** X14. From [addJob] to the handler. On an initialised dispatcher,
    [addJob] with an input that the schema accepts as [parsed] enqueues one
    job, named [default], whose payload is [{source: parsed, __prepared:
    true}] with empty state and attempt lists; [prepare] leaves that payload
    as it is; and [processJob] on that job validates the source once more:
    the workflow function is called with the result of applying the schema
    to [parsed], so the job cannot run if the schema rejects its own
    output. *)
Theorem added_job_is_processed_with_reparsed_input d (input options_ : value) s q
    parsed opts :
  Queueing.bullQueue s = Some q →
  Queueing.schema (Queueing.options d) input = Some parsed →
  Queueing.formatJobOptions (match options_ with VUndef => VObj [] | _ => options_ end)
  = Some opts →
  let r := Queueing.addJob d input options_ s in
  let payload := ActiveJob_to_value (wrapped parsed) in
  let bj := {| bj_data := payload; bj_calls := [] |} in
  r.1 = Ok bj ∧
  Queueing.bullQueue r.2 = Some (queue_called (Queueing.queue_add "default" payload opts) q) ∧
  Queueing.bullWorker r.2 = Queueing.bullWorker s ∧
  prepare payload = Some (payload, wrapped parsed) ∧
  workflow_input (Queueing.processor d) bj
  = Queueing.schema (Queueing.options d) parsed ∧
  ∀ token w data,
    Queueing.schema (Queueing.options d) parsed = Some data →
    processJob (Queueing.processor d) token (boot bj w)
    = let rm := run (runner_of (Queueing.processor d) token)
                    (Queueing.handler (Queueing.options d) data) (boot bj w) in
      match rm.1 with
      | Ok v => (Ok v, (finalize rm.2).2)
      | Throw e => (Throw e, rm.2)
      end.
Proof.
  intros Hq Hs Ho r payload bj.
  assert (Hprep : prepare payload = Some (payload, wrapped parsed))
    by (apply prepare_prepared; [apply parse_to_value | done]).
  split; [|split; [|split; [|split; [exact Hprep|split]]]].
  - unfold r. by rewrite (addJob_eq d input options_ s q parsed opts).
  - unfold r. by rewrite (addJob_eq d input options_ s q parsed opts).
  - unfold r. by rewrite (addJob_eq d input options_ s q parsed opts).
  - unfold workflow_input, new_ActiveJob, getSourceData, getParsedData. cbn [bj_data bj].
    rewrite Hprep. cbn. unfold payload. by rewrite parse_to_value.
  - intros token w data Hd.
    by rewrite (processJob_eq (Queueing.processor d) token (boot bj w) payload
                  (wrapped parsed) data Hprep Hd).
Qed.

Lemma formatBulkJob_pure d inp s : (Queueing.formatBulkJob d inp s).2 = s.
Proof.
  unfold Queueing.formatBulkJob, Queueing.read_member. queue_unfold.
  destruct inp; try reflexivity;
    repeat (match goal with
            | |- context [match ?o with Some _ => _ | None => _ end] => destruct o
            end; cbn [fst snd]);
    reflexivity.
Qed.

Lemma formatBulkJob_eq d inp s :
  Queueing.formatBulkJob d inp s = ((Queueing.formatBulkJob d inp s).1, s).
Proof.
  rewrite <- (formatBulkJob_pure d inp s) at 3. by destruct (Queueing.formatBulkJob d inp s).
Qed.

Lemma array_map_throws {A B} (f : A → Queueing.Q B) pre a post e s :
  Forall (λ x, ∃ b, f x s = (Ok b, s)) pre →
  f a s = (Throw e, s) →
  Queueing.array_map f (pre ++ a :: post) s = (Throw e, s).
Proof.
  intros Hpre Ha. induction Hpre as [|x pre [b Hx] _ IH]; cbn; cbv [bind ret].
  - by rewrite Ha.
  - rewrite Hx. by rewrite IH.
Qed.

Lemma array_map_returns {A B} (f : A → Queueing.Q B) l s :
  Forall (λ x, ∃ b, f x s = (Ok b, s)) l →
  ∃ bs, Queueing.array_map f l s = (Ok bs, s) ∧ Forall2 (λ x b, f x s = (Ok b, s)) l bs.
Proof.
  induction 1 as [|x l [b Hx] _ (bs & Hbs & Hall)]; cbn; cbv [bind ret].
  - by exists [].
  - exists (b :: bs). rewrite Hx, Hbs. split; [done|]. by constructor.
Qed.

Lemma formatBulkJob_returns d inp s j :
  (Queueing.formatBulkJob d inp s).1 = Ok j →
  ∃ parsed opts,
    Queueing.schema (Queueing.options d) (get_prop inp "data") = Some parsed ∧
    Queueing.formatJobOptions (get_prop inp "options") = Some opts ∧
    inp ≠ VUndef ∧ inp ≠ VNull ∧
    j = VObj [("name", VStr "default");
              ("data", ActiveJob_to_value (wrapped parsed));
              ("options", opts)].
Proof.
  unfold Queueing.formatBulkJob, Queueing.read_member. queue_unfold.
  intros Hj.
  assert (Hn : inp ≠ VUndef ∧ inp ≠ VNull) by (by destruct inp).
  assert (Hgo :
    match Queueing.schema (Queueing.options d) (get_prop inp "data") with
    | Some parsed =>
        match Queueing.formatJobOptions (get_prop inp "options") with
        | Some opts => j = VObj [("name", VStr "default");
                                 ("data", ActiveJob_to_value (wrapped parsed));
                                 ("options", opts)]
        | None => False
        end
    | None => False
    end).
  { destruct inp; try done;
      (destruct (Queueing.schema _ _) as [parsed|]; [|done]);
      rewrite formatNewJobData_wrapped in Hj;
      (destruct (Queueing.formatJobOptions _) as [opts|]; [|done]);
      cbn in Hj; by simplify_eq. }
  destruct (Queueing.schema _ _) as [parsed|]; [|done].
  destruct (Queueing.formatJobOptions _) as [opts|]; [|done].
  exists parsed, opts. by destruct Hn.
Qed.

(** X15. [addBulkJobs] is all or nothing. If formatting one of the inputs
    throws (the [ZodError] of the schema of the dispatcher on its [data] or
    of [AddJobOptionsSchema] on its [options], or the [TypeError] of reading
    a member of an input that is [undefined] or [null]), [addBulkJobs]
    throws the error of the first such input and the queue receives nothing;
    otherwise the queue receives a single [addBulk] with one entry per
    input, in order, each an object with the name [default], the payload
    that [addJob] would enqueue for that [data], and the formatted options
    under the key [options]. An input without [options] always throws:
    unlike [addJob], [addBulkJobs] has no default for it. *)
Theorem addBulkJobs_is_all_or_nothing d (inputs : list value) s q :
  Queueing.bullQueue s = Some q →
  let r := Queueing.addBulkJobs d inputs s in
  let formatted inp := (Queueing.formatBulkJob d inp s).1 in
  (∀ pre inp post e,
     inputs = pre ++ inp :: post →
     Forall (λ x, ∃ j, formatted x = Ok j) pre →
     formatted inp = Throw e →
     r = (Throw e, s)) ∧
  ((∀ inp, inp ∈ inputs → ∃ j, formatted inp = Ok j) →
   ∃ jobs,
     r.1 = Ok ((λ j, {| bj_data := get_prop j "data"; bj_calls := [] |}) <$> jobs) ∧
     Queueing.bullQueue r.2 = Some (queue_called (Queueing.queue_addBulk jobs) q) ∧
     Forall2 (λ inp j,
                ∃ parsed opts,
                  Queueing.schema (Queueing.options d) (get_prop inp "data") = Some parsed ∧
                  Queueing.formatJobOptions (get_prop inp "options") = Some opts ∧
                  j = VObj [("name", VStr "default");
                            ("data", ActiveJob_to_value (wrapped parsed));
                            ("options", opts)])
             inputs jobs) ∧
  (∀ inp, get_prop inp "options" = VUndef → ∃ e, formatted inp = Throw e) ∧
  formatted VNull = Throw (Queueing.null_member "data").
Proof.
  intros Hq r formatted. split; [|split; [|split]].
  - intros pre inp post e -> Hpre Hinp.
    unfold r, Queueing.addBulkJobs. cbv [bind].
    rewrite (array_map_throws (Queueing.formatBulkJob d) pre inp post e s); [done| |].
    + eapply Forall_impl; [exact Hpre|]. intros x [j Hx]. exists j.
      rewrite formatBulkJob_eq. by rewrite <- Hx.
    + rewrite formatBulkJob_eq. by rewrite <- Hinp.
  - intros Hall.
    destruct (array_map_returns (Queueing.formatBulkJob d) inputs s) as (jobs & Hm & Hjobs).
    { apply Forall_forall. intros x Hx. destruct (Hall x Hx) as [j Hj]. exists j.
      rewrite formatBulkJob_eq. by rewrite <- Hj. }
    exists jobs. unfold r. queue_unfold. rewrite Hm, Hq. cbn.
    split; [done|]. split; [done|].
    eapply Forall2_impl; [exact Hjobs|].
    intros inp j Hj.
    destruct (formatBulkJob_returns d inp s j) as (parsed & opts & Hp & Ho & _ & _ & ->).
    { by rewrite Hj. }
    by exists parsed, opts.
  - intros inp Hu. unfold formatted.
    destruct (Queueing.formatBulkJob d inp s) as [[j|e] s'] eqn:Hf; [|by exists e].
    destruct (formatBulkJob_returns d inp s j) as (parsed & opts & _ & Ho & _).
    { by rewrite Hf. }
    rewrite Hu in Ho. done.
  - reflexivity.
Qed.

End QueueExtras.

(** ** The options of the queue and of the worker *)

Section ConfigExtras.
Import FullConfig Queueing.

(** X16. The job id is set for a non-empty [uniqueJobId] only. For an
    options object, [#formatJobOptions] returns [{jobId: id}] when
    [uniqueJobId] is a non-empty string [id], the empty object when
    [uniqueJobId] is absent or the empty string, and throws when it is
    anything else; the other keys of the options are dropped. *)
Theorem formatJobOptions_sets_jobId_for_nonempty_ids (fs : list (string * value)) :
  formatJobOptions (VObj fs)
  = match assoc "uniqueJobId" fs with
    | VUndef => Some (VObj [])
    | VStr s => Some (if decide (s = "") then VObj [] else VObj [("jobId", VStr s)])
    | _ => None
    end.
Proof.
  unfold formatJobOptions, AddJobOptionsSchema. cbn.
  destruct (assoc "uniqueJobId" fs) as [| | | |s| | | |]; try reflexivity.
  destruct s as [|c s]; reflexivity.
Qed.


(** Every optional part of the configuration is absent, disabled or
    enabled. *)
Ltac by_cases config :=
  destruct config as [[st co re rl db dl rp pr] [oc ofl]];
  destruct re as [[[] ? ? ?]|], rl as [[[] ? ? ?]|],
           db as [[? [] ? ?]|], dl as [[[] ? ? ?]|], rp as [[[] ? ? ?]|],
           pr as [[[] ? ?]|];
  vm_compute; repeat split; reflexivity.

Lemma queue_retries config :
  let dj := get_prop (queueOptions config) "defaultJobOptions" in
  match retries (jobs config) with
  | Some r =>
      if retries_enabled r then
        get_prop dj "attempts" = VNum (max r) ∧
        get_prop dj "backoff" = VObj [("type", VStr (backoff_name (backoff r)));
                                      ("delay", VNum (retries_delay r))]
      else get_prop dj "attempts" = VNum 0 ∧ get_prop dj "backoff" = VUndef
  | None => get_prop dj "attempts" = VNum 0 ∧ get_prop dj "backoff" = VUndef
  end.
Proof.
  destruct config as [[st co re rl db dl rp pr] [oc ofl]].
  destruct re as [[[] ? ? ?]|]; vm_compute; repeat split; reflexivity.
Qed.

Lemma worker_retries config :
  let wo := workerOptions config in
  match retries (jobs config) with
  | Some r =>
      if retries_enabled r then
        get_prop wo "attempts" = VNum (max r) ∧
        get_prop wo "backoff" = VStr (backoff_name (backoff r)) ∧
        get_prop wo "delay" = VNum (retries_delay r)
      else get_prop wo "attempts" = VUndef ∧ get_prop wo "backoff" = VUndef
  | None => get_prop wo "attempts" = VUndef ∧ get_prop wo "backoff" = VUndef
  end.
Proof. by_cases config. Qed.

(** X17. Retries are off unless the configuration names them. For a
    dispatcher built by [OpenQueue.action]: when the configuration has no
    [jobs.retries] (as the empty configuration), or has it with [enabled:
    false], the default job options of the queue have [attempts: 0] and no
    [backoff], and the worker options have neither; when [jobs.retries] is
    given and not disabled, both carry [max] (3 if unset) as [attempts], and
    the backoff is [exponential] with a delay of 1000 if unset. *)
Theorem retries_are_off_unless_configured {W} (opts : Client.ActionOptions)
    (i : option ActionDispatcherConfigInput) (h : ActionHandler W) :
  let d := Client.action opts i h in
  let dj := get_prop (queueOptions (config d)) "defaultJobOptions" in
  let wo := workerOptions (config d) in
  match configured_retries i with
  | Some ri =>
      if default true (in_retries_enabled ri) then
        get_prop dj "attempts" = VNum (default 3 (in_max ri)) ∧
        get_prop dj "backoff"
        = VObj [("type", VStr (backoff_name (default exponential (in_backoff ri))));
                ("delay", VNum (default 1000 (in_retries_delay ri)))] ∧
        get_prop wo "attempts" = VNum (default 3 (in_max ri)) ∧
        get_prop wo "backoff" = VStr (backoff_name (default exponential (in_backoff ri)))
      else retries_off (config d)
  | None => retries_off (config d)
  end.
Proof.
  intros d dj wo.
  assert (Hr : retries (jobs (config d)) = RetriesSchema <$> configured_retries i)
    by by destruct i as [[[j|] rem]|].
  pose proof (queue_retries (config d)) as Hq.
  pose proof (worker_retries (config d)) as Hw.
  cbv zeta in Hq, Hw. rewrite Hr in Hq, Hw. unfold retries_off. fold dj wo in Hq, Hw |- *.
  destruct (configured_retries i) as [ri|]; cbn in Hq, Hw |- *; [|tauto].
  destruct (default true (in_retries_enabled ri)); tauto.
Qed.

(** X18. Two meanings of [delay] in the worker options. [#workerOptions]
    spreads the job delay ([{duration, key}]) and, after it, the retry
    settings ([attempts], [backoff], [delay]) into one object: with retries
    enabled the key [delay] holds the retry delay, a number, whether or not
    a job delay is configured; only with retries off does it hold the job
    delay. In the default job options of the queue, [delay] is the duration
    of the job delay, or 0. *)
Theorem retry_delay_replaces_job_delay (config : ActionDispatcherConfig) :
  let wo := workerOptions config in
  let dj := get_prop (queueOptions config) "defaultJobOptions" in
  let retrying := from_option retries_enabled false (retries (jobs config)) in
  let delaying := from_option delay_enabled false (delay (jobs config)) in
  get_prop wo "delay"
  = (if retrying then from_option (λ r, VNum (retries_delay r)) VUndef (retries (jobs config))
     else if delaying
          then from_option (λ dl, VObj [("duration", VNum (delay_duration dl));
                                        ("key", VStr (delay_key dl))])
                           VUndef (delay (jobs config))
          else VUndef) ∧
  get_prop dj "delay"
  = (if delaying then from_option (λ dl, VNum (delay_duration dl)) VUndef (delay (jobs config))
     else VNum 0).
Proof.
  split; [by_cases config|].
  destruct config as [[st co re rl db dl rp pr] [oc ofl]].
  destruct re as [[[] ? ? ?]|], dl as [[[] ? ? ?]|]; vm_compute; reflexivity.
Qed.

End ConfigExtras.

(** ** The life cycle of a dispatcher *)

Lemma assoc_define_prop k k' v fs :
  assoc k (define_prop k' v fs) = if decide (k = k') then v else assoc k fs.
Proof.
  induction fs as [|[k0 v0] fs IH]; cbn.
  - by destruct (decide (k = k')).
  - destruct (decide (k' = k0)) as [->|Hne]; cbn.
    + by destruct (decide (k = k0)).
    + destruct (decide (k = k0)) as [->|Hne'].
      * by rewrite decide_False by done.
      * exact IH.
Qed.

Section Lifecycle.
Import FullConfig Queueing.
Context {W : Type} `{!World W}.
Implicit Types (d : ActionDispatcher W) (s : Handles).

Local Arguments String.append : simpl never.

Lemma queue_options_with_connection cfg conn :
  let qo := object_literal [Spread (queueOptions cfg); Member "connection" conn] in
  get_prop qo "connection" = conn ∧
  get_prop qo "defaultJobOptions" = get_prop (queueOptions cfg) "defaultJobOptions".
Proof.
  unfold queueOptions.
  match goal with |- context [Member "defaultJobOptions" ?x] => generalize x end.
  intros dj. split; reflexivity.
Qed.

Lemma worker_options_with_connection cfg conn :
  let wo := object_literal [Spread (workerOptions cfg); Member "connection" conn] in
  get_prop wo "connection" = conn ∧ get_prop wo "autorun" = VBool false.
Proof.
  destruct cfg as [[st co re rl db dl rp pr] [oc ofl]];
  destruct re as [[[] ? ? ?]|], rl as [[[] ? ? ?]|],
           db as [[? [] ? ?]|], dl as [[[] ? ? ?]|], rp as [[[] ? ? ?]|],
           pr as [[[] ? ?]|];
  vm_compute; repeat split; reflexivity.
Qed.

Lemma init_eq d (c : OpenQueueClient) s :
  init d c s
  = (Ok (),
     {| client := Some c;
        bullQueue :=
          Some {| queue_name := slug (options d);
                  queue_opts := object_literal [Spread (queueOptions (config d));
                                                Member "connection" (connection c)];
                  queue_calls :=
                    match concurrency (jobs (config d)) ≫= global with
                    | Some g => if g =? 0 then [] else [queue_setGlobalConcurrency g]
                    | None => []
                    end |};
        bullWorker :=
          Some {| worker_name := slug (options d);
                  worker_opts := object_literal [Spread (workerOptions (config d));
                                                 Member "connection" (connection c)];
                  worker_calls := [] |} |}).
Proof.
  unfold init.
  generalize (object_literal [Spread (queueOptions (config d));
                              Member "connection" (connection c)]).
  generalize (object_literal [Spread (workerOptions (config d));
                              Member "connection" (connection c)]).
  intros wo qo.
  cbv [on_queue bind ret modify]. cbn [fst snd client bullQueue bullWorker].
  destruct (concurrency (jobs (config d)) ≫= global) as [g|]; [|reflexivity].
  cbn [truthy]. destruct (g =? 0); reflexivity.
Qed.

(** X19. What [init] sets up. [init] does not fail: it stores the client
    and creates a queue and a worker named by the slug of the dispatcher,
    both with the connection of the client, replacing handles it may have
    had; the default job options of the queue are those of [#queueOptions];
    the worker is created with [autorun: false] and has received no call, so
    it processes nothing until [start]; and the queue is told a global
    concurrency exactly when [jobs.concurrency.global] is set and not 0,
    whether or not concurrency is enabled. *)
Theorem init_creates_queue_and_idle_worker d (c : OpenQueueClient) s :
  let r := init d c s in
  r.1 = Ok () ∧ client r.2 = Some c ∧
  ∃ q w,
    bullQueue r.2 = Some q ∧ bullWorker r.2 = Some w ∧
    queue_name q = slug (options d) ∧ worker_name w = slug (options d) ∧
    get_prop (queue_opts q) "connection" = connection c ∧
    get_prop (worker_opts w) "connection" = connection c ∧
    get_prop (queue_opts q) "defaultJobOptions"
    = get_prop (queueOptions (config d)) "defaultJobOptions" ∧
    get_prop (worker_opts w) "autorun" = VBool false ∧
    worker_calls w = [] ∧
    queue_calls q
    = match concurrency (jobs (config d)) ≫= global with
      | Some g => if g =? 0 then [] else [queue_setGlobalConcurrency g]
      | None => []
      end.
Proof.
  intros r. unfold r. rewrite init_eq. cbn [fst snd client bullQueue bullWorker].
  destruct (queue_options_with_connection (config d) (connection c)) as (Hqc & Hdj).
  destruct (worker_options_with_connection (config d) (connection c)) as (Hwc & Ha).
  split; [done|]. split; [done|]. eexists _, _.
  split; [reflexivity|]. split; [reflexivity|].
  cbn [queue_name worker_name queue_opts worker_opts queue_calls worker_calls].
  split; [done|]. split; [done|]. split; [exact Hqc|]. split; [exact Hwc|].
  split; [exact Hdj|]. split; [exact Ha|]. split; reflexivity.
Qed.

(** X20. Before [init] nothing works. On a dispatcher that has not been
    initialised, [addJob] with an input that passes the schema,
    [addBulkJobs] with inputs that all format, [start], [pause],
    [startQueue] and [pauseQueue] all throw the [TypeError] of reading a
    member of [null], and change nothing. ([addBulkJobs] formats its inputs
    first: when one of them does not format, it throws the error of the
    first such input instead, as it does after [init].) After [init],
    [start] calls [run] and then [resume] on the worker. *)
Theorem nothing_works_before_init d (c : OpenQueueClient) (input options_ : value) parsed :
  schema (options d) input = Some parsed →
  let s0 := not_initialised in
  let formatted inp := (formatBulkJob d inp s0).1 in
  addJob d input options_ s0 = (Throw (null_member "add"), s0) ∧
  (∀ inputs, (∀ inp, inp ∈ inputs → ∃ j, formatted inp = Ok j) →
             addBulkJobs d inputs s0 = (Throw (null_member "addBulk"), s0)) ∧
  (∀ pre inp post e,
     Forall (λ x, ∃ j, formatted x = Ok j) pre → formatted inp = Throw e →
     addBulkJobs d (pre ++ inp :: post) s0 = (Throw e, s0)) ∧
  start s0 = (Throw (null_member "run"), s0) ∧
  pause s0 = (Throw (null_member "pause"), s0) ∧
  startQueue s0 = (Throw (null_member "resume"), s0) ∧
  pauseQueue s0 = (Throw (null_member "pause"), s0) ∧
  let s1 := (init d c s0).2 in
  (worker_calls <$> bullWorker (start s1).2) = Some [worker_run; worker_resume] ∧
  (start s1).1 = Ok ().
Proof.
  intros Hs s0 formatted.
  split; [|split; [|split; [|split; [|split; [|split; [|split]]]]]].
  - cbv [addJob lift_zod queue_member bind ret]. rewrite Hs. reflexivity.
  - intros inputs Hall.
    destruct (array_map_returns (formatBulkJob d) inputs s0) as (jobs & Hm & _).
    { apply Forall_forall. intros x Hx. destruct (Hall x Hx) as [j Hj]. exists j.
      rewrite formatBulkJob_eq. unfold formatted in Hj. by rewrite Hj. }
    unfold addBulkJobs. cbv [bind]. rewrite Hm. reflexivity.
  - intros pre inp post e Hpre Hinp.
    unfold addBulkJobs. cbv [bind].
    rewrite (array_map_throws (formatBulkJob d) pre inp post e s0); [done| |].
    + eapply Forall_impl; [exact Hpre|]. intros x [j Hx]. exists j.
      rewrite formatBulkJob_eq. unfold formatted in Hx. by rewrite Hx.
    + rewrite formatBulkJob_eq. unfold formatted in Hinp. by rewrite Hinp.
  - reflexivity.
  - reflexivity.
  - reflexivity.
  - reflexivity.
  - intros s1. unfold s1. rewrite init_eq. cbn [snd].
    split; reflexivity.
Qed.

End Lifecycle.

Lemma added_job_is_processed_with_reparsed_input_witness :
  ∃ q, Queueing.bullQueue demo_handles = Some q ∧
       Queueing.formatJobOptions (VObj []) = Some (VObj []) ∧
       let r := Queueing.addJob demo_action demo_input VUndef demo_handles in
       r.1 = Ok (enqueued demo_input) ∧
       workflow_input (Queueing.processor demo_action) (enqueued demo_input)
       = Some demo_input.
Proof.
  assert (Hq : ∃ q, Queueing.bullQueue demo_handles = Some q)
    by (eexists; vm_compute; reflexivity).
  destruct Hq as [q Hq]. exists q. split; [exact Hq|].
  assert (Ho : Queueing.formatJobOptions (VObj []) = Some (VObj []))
    by (vm_compute; reflexivity).
  split; [exact Ho|].
  pose proof (added_job_is_processed_with_reparsed_input demo_action demo_input VUndef
                demo_handles q demo_input (VObj []) Hq eq_refl Ho) as H.
  cbv zeta in H. destruct H as (Hr & _ & _ & _ & Hin & _).
  split; [exact Hr | exact Hin].
Defined.

Lemma addBulkJobs_is_all_or_nothing_witness :
  let good := VObj [("data", demo_input); ("options", VObj [])] in
  let bad := VObj [("data", demo_input)] in
  ∃ q, Queueing.bullQueue demo_handles = Some q ∧
       Queueing.addBulkJobs demo_action [good; bad] demo_handles
       = (Throw ZodError, demo_handles).
Proof.
  intros good bad.
  assert (Hq : ∃ q, Queueing.bullQueue demo_handles = Some q)
    by (eexists; vm_compute; reflexivity).
  destruct Hq as [q Hq]. exists q. split; [exact Hq|].
  pose proof (addBulkJobs_is_all_or_nothing demo_action [good; bad] demo_handles q Hq) as H.
  cbv zeta in H. destruct H as (Hthrows & _).
  apply (Hthrows [good] bad [] ZodError).
  - reflexivity.
  - constructor; [|constructor]. eexists. vm_compute. reflexivity.
  - vm_compute. reflexivity.
Defined.

Lemma nothing_works_before_init_witness :
  Queueing.schema (Queueing.options demo_action) demo_input = Some demo_input ∧
  Queueing.addJob demo_action demo_input VUndef Queueing.not_initialised
  = (Throw (VError TypeErrorC "Cannot read properties of null (reading 'add')"),
     Queueing.not_initialised) ∧
  (Queueing.start demo_handles).1 = Ok ().
Proof.
  pose proof (nothing_works_before_init demo_action demo_client demo_input VUndef demo_input
                eq_refl) as H.
  cbv zeta in H. destruct H as (Hadd & _ & _ & _ & _ & _ & _ & _ & Hstart).
  split; [reflexivity|]. split; [exact Hadd | exact Hstart].
Defined.
